(** * sshauth: the interactive registration session of [sshauth.go]

    A shallow embedding of the line reader [readN], the password reader
    [readPassword], the directory helpers [exists] and [register] and the
    session handler passed to [ssh.Handle], followed by the properties of
    the session protocol. *)

From Stdlib Require Import ZArith NArith Lia Bool.
From Stdlib Require Import Strings.Byte Strings.String Numbers.DecimalString.
From stdpp Require Import base list.

Local Open Scope N_scope.

(** ** Bytes, strings and machine integers *)

(** A Go [string] or [[]byte] is a sequence of bytes. *)
Abbreviation bytes := (list byte).

Definition bytes_of (s : string) : bytes := list_byte_of_string s.

Definition byte_eqb (a b : byte) : bool := Byte.eqb a b.

Fixpoint bytes_eqb (a b : bytes) : bool :=
  match a, b with
  | [], [] => true
  | x :: a', y :: b' => byte_eqb x y && bytes_eqb a' b'
  | _, _ => false
  end.

(** Control bytes the reader switches on, and the ones it writes. *)
Definition DEL : byte := x7f.   (* case 127 *)
Definition CR : byte := x0d.    (* '\r' *)
Definition LF : byte := x0a.    (* '\n' *)
Definition BS : byte := x08.    (* '\b' *)
Definition TAB : byte := x09.   (* '\t' *)
Definition SP : byte := x20.    (* ' ' *)
Definition NUL : byte := x00.   (* the zero value of a byte *)

(** [uint] is 64 bits wide: [in += 1] and [in--] wrap around. *)
Definition uint_mod : N := 2 ^ 64.
Definition uint_inc (n : N) : N := (n + 1) mod uint_mod.
Definition uint_dec (n : N) : N := (n + uint_mod - 1) mod uint_mod.

(** [int] is 64 bits wide and signed: [i--] wraps around. *)
Definition int_wrap (z : Z) : Z := ((z + 2 ^ 63) mod 2 ^ 64 - 2 ^ 63)%Z.
Definition int_dec (z : Z) : Z := int_wrap (z - 1).

(** [%d] of an unsigned and of a signed integer. *)
Definition fmt_uint (n : N) : bytes :=
  bytes_of (NilEmpty.string_of_uint (N.to_uint n)).
Definition fmt_int (z : Z) : bytes :=
  bytes_of (NilEmpty.string_of_int (Z.to_int z)).

(** ** Events, outcomes and the session monad *)

(** What a session does to the outside world, in order. *)
Inductive Event : Type :=
| EvWrite (p : bytes)                         (* s.Write / io.WriteString(s, _) *)
| EvLog (msg : bytes)                         (* log.Printf / log.Fatalf *)
| EvSendmail (dest token : bytes)             (* sendmail(dest, token) *)
| EvLdapBind                                  (* ldap.DialURL + l.Bind *)
| EvLdapSearch (base filter : bytes)          (* l.Search *)
| EvLdapAdd (dn attr : bytes) (vals : list bytes)  (* l.Add *)
| EvLdapPasswordModify (dn newPassword : bytes)    (* l.PasswordModify *)
| EvLdapClose                                 (* deferred l.Close() *)
| EvClose.                                    (* deferred s.Close() *)

(** How a block of the handler ends. *)
Inductive Res (A : Type) : Type :=
| Done (a : A)    (* fell through to the next statement *)
| Returned        (* executed [return] *)
| Fatal           (* log.Fatalf: the process exits, deferred calls do not run *)
| Panicked        (* index out of range *)
| NoFuel.         (* the loop bound of the model was reached *)
Arguments Done {A} a.
Arguments Returned {A}.
Arguments Fatal {A}.
Arguments Panicked {A}.
Arguments NoFuel {A}.

(** The part of the world a session reads from: the bytes the peer will
    still send (once they are used up [s.Read] fails, as after a
    disconnect) and the numbers the process-wide random source will
    still produce. *)
Record World : Type := mkWorld {
  stream : bytes;
  rng : list N;
}.

Definition M (A : Type) : Type := World -> Res A * World * list Event.

Definition ret {A} (a : A) : M A := fun w => (Done a, w, []).

Definition bnd {A B} (m : M A) (k : A -> M B) : M B := fun w =>
  match m w with
  | (Done a, w', evs) =>
      let '(r, w'', evs') := k a w' in (r, w'', evs ++ evs')
  | (Returned, w', evs) => (Returned, w', evs)
  | (Fatal, w', evs) => (Fatal, w', evs)
  | (Panicked, w', evs) => (Panicked, w', evs)
  | (NoFuel, w', evs) => (NoFuel, w', evs)
  end.

Notation "x <- m ;; k" := (bnd m (fun x => k))
  (at level 100, m at next level, right associativity).
Notation "m ;;; k" := (bnd m (fun _ => k))
  (at level 100, right associativity).

Definition emit (e : Event) : M unit := fun w => (Done tt, w, [e]).
Definition write (p : bytes) : M unit := emit (EvWrite p).
Definition logf (msg : bytes) : M unit := emit (EvLog msg).
Definition do_return {A} : M A := fun w => (Returned, w, []).
Definition fatal {A} : M A := fun w => (Fatal, w, []).
Definition panic {A} : M A := fun w => (Panicked, w, []).
Definition nofuel {A} : M A := fun w => (NoFuel, w, []).

Definition result {A} (x : Res A * World * list Event) : Res A := x.1.1.
Definition world {A} (x : Res A * World * list Event) : World := x.1.2.
Definition events {A} (x : Res A * World * list Event) : list Event := x.2.

(** ** contains (sshauth.go 58-65) *)

Fixpoint contains (elems : bytes) (v : byte) : bool :=
  match elems with
  | [] => false
  | s :: elems' => if byte_eqb v s then true else contains elems' v
  end.

(** ** readN (sshauth.go 67-109) *)

(** [res[i] = v]; an index outside the slice panics. *)
Definition store (res : bytes) (i : N) (v : byte) : option bytes :=
  if i <? N.of_nat (length res) then Some (<[N.to_nat i := v]> res) else None.

(** The loop of [readN] from the state ([res], [in_]) over the bytes [s]
    still to come.  It gives the outcome, the bytes left unread and the
    writes made to the stream. *)
Fixpoint readN_loop (l : N) (onlyIn : bytes) (wr : bool)
    (res : bytes) (in_ : N) (s : bytes) {struct s}
    : Res (bytes * N) * bytes * list Event :=
  match s with
  | [] => (Done (res, in_), [], [])          (* err != nil: return *)
  | b :: s' =>
      if byte_eqb b DEL then
        if 0 <? in_ then
          let ev := if wr then [EvWrite [BS; SP; BS]] else [] in
          let in' := uint_dec in_ in
          match store res in' SP with
          | None => (Panicked, s', ev)
          | Some res' =>
              let '(r, rest, evs) := readN_loop l onlyIn wr res' in' s' in
              (r, rest, ev ++ evs)
          end
        else readN_loop l onlyIn wr res in_ s'
      else if byte_eqb b CR then
        (Done (res, in_), s', [EvWrite [LF; CR]])   (* done = true *)
      else if (0 <? length onlyIn)%nat && negb (contains onlyIn b) then
        readN_loop l onlyIn wr res in_ s'
      else if in_ <? l then
        let ev := if wr then [EvWrite [b]] else [] in
        match store res in_ b with
        | None => (Panicked, s', ev)
        | Some res' =>
            let '(r, rest, evs) :=
              readN_loop l onlyIn wr res' (uint_inc in_) s' in
            (r, rest, ev ++ evs)
        end
      else readN_loop l onlyIn wr res in_ s'
  end.

(** [res = make([]byte, l)], [in = 0], then the loop. *)
Definition readN_pure (l : N) (onlyIn : bytes) (wr : bool) (s : bytes)
    : Res (bytes * N) * bytes * list Event :=
  readN_loop l onlyIn wr (replicate (N.to_nat l) NUL) 0 s.

Definition readN (l : N) (onlyIn : bytes) (wr : bool) : M (bytes * N) :=
  fun w =>
    let '(r, rest, evs) := readN_pure l onlyIn wr (stream w) in
    (r, mkWorld rest (rng w), evs).

(** ** Configuration and external collaborators *)

(** [Options] (sshauth.go 19-39); [uint] fields are below [uint_mod]. *)
Record Options : Type := mkOptions {
  Host : bytes;
  Port : Z;
  TokenLength : N;
  SMTPServer : bytes;
  FromName : bytes;
  FromAddress : bytes;
  ToSuffix : bytes;
  Subject : bytes;
  LdapURI : bytes;
  LldapURI : bytes;
  LdapBindDN : bytes;
  LdapBindPassword : bytes;
  LdapUserScope : bytes;
  PasswordMin : N;
  PasswordMax : N;
  PasswordRegexp : bytes;
}.

(** The libraries and services the session calls: the compiled
    [passwordRegexp], [net/url], [ldap.EscapeFilter], the SMTP server and
    the LDAP server.  A [bool] tells whether the call returns a nil error;
    a search gives the number of entries found, or fails. *)
Record Env : Type := mkEnv {
  passwordRegexp_Match : bytes -> bool;
  url_JoinPath_String : bytes -> bytes -> bytes;
  ldap_EscapeFilter : bytes -> bytes;
  smtp_ok : bytes -> bytes -> bool;
  ldap_bind_ok : bool;
  ldap_search : bytes -> bytes -> option nat;
  ldap_add_ok : bytes -> bool;
  ldap_passwd_ok : bytes -> bytes -> bool;
}.

(** ** Message templates (sshauth.go 48-56) *)

Definition WELCOME_BODY (mail : bytes) : bytes :=
  bytes_of "Welcome." ++ [LF] ++ bytes_of "Sending a mail to " ++ mail
  ++ bytes_of ", do you accept? (y/N): ".
Definition TOKEN_BODY : bytes := bytes_of "Enter the token you recieved by mail: ".
Definition TOKEN_FAILED : bytes :=
  bytes_of "Invalid token. Verification failed." ++ [LF].
Definition TOKEN_RETRY (i : Z) : bytes :=
  bytes_of "Invalid token. Please, try again (you have " ++ fmt_int i
  ++ bytes_of " more retries)" ++ [LF].
Definition ALREADY_REGISTERED (url : bytes) : bytes :=
  bytes_of "You're already registered." ++ [LF]
  ++ bytes_of "You can authenticate over at" ++ [LF; TAB] ++ url ++ [LF]
  ++ bytes_of "to manage your account. Bye!".
Definition PASWORD_RULES (lo hi : N) : bytes :=
  bytes_of "Please, enter your password twice. It must respect the following rules:"
  ++ [LF] ++ bytes_of "- The length must be between " ++ fmt_uint lo
  ++ bytes_of " and " ++ fmt_uint hi ++ bytes_of " (included)" ++ [LF]
  ++ bytes_of "- It must contain at least one letter and one digit" ++ [LF].
Definition PASSWORD_FAILED : bytes :=
  bytes_of "Password attempts failed. Logging out.".
Definition REGISTRATION_SUCCESS (url : bytes) : bytes :=
  bytes_of "You are now registered! You can authenticate over at" ++ [LF; TAB]
  ++ url ++ [LF] ++ bytes_of "to manage your account. Bye!".

(** Literals of the handler. *)
Definition BYE : bytes := bytes_of "Bye!" ++ [LF].
Definition MAIL_FAILED : bytes := bytes_of "Could not send mail" ++ [LF].
Definition NOT_REGISTERED : bytes :=
  bytes_of "You're not registered. Proceeding with the registration process"
  ++ [LF].
Definition PASSWORD_PROMPT : bytes := bytes_of "Password: ".
Definition REPEAT_PROMPT : bytes := bytes_of "Repeat your password: ".
Definition REGISTERING : bytes :=
  bytes_of "Registering user with the given password" ++ [LF].
Definition TOO_SHORT : bytes := bytes_of "Password is too short".
Definition NOT_COMPLIANT : bytes :=
  bytes_of "Password does not comply with the rules".
Definition NO_MATCH : bytes := bytes_of "Passwords don't match".

(** [letters] (sshauth.go 160-163). *)
Definition letters : bytes :=
  bytes_of "abcdefghijklmnopqrstuvwxyzABCDEFGHIJKLMNOPQRSTUVWXYZ1234567890".

(** [buf[i]]; an index outside the slice panics. *)
Definition index (buf : bytes) (i : nat) : M byte :=
  match buf !! i with
  | Some b => ret b
  | None => panic
  end.

(** [rand.Intn(n)]: the next number of the random source, brought into
    the range below [n]. *)
Definition rand_Intn (n : N) : M N := fun w =>
  match rng w with
  | [] => (Done 0, w, [])
  | x :: r => (Done (x mod n), mkWorld (stream w) r, [])
  end.

(** [randomString] (sshauth.go 165-171). *)
Fixpoint randomString_loop (n : nat) : M bytes :=
  match n with
  | O => ret []
  | S n' =>
      k <- rand_Intn (N.of_nat (length letters)) ;;
      c <- index letters (N.to_nat k) ;;
      b <- randomString_loop n' ;;
      ret (c :: b)
  end.

Definition randomString (n : N) : M bytes := randomString_loop (N.to_nat n).

(** A deferred call runs when the function returns or panics, and does
    not run when the process exits. *)
Definition with_defer {A} (e : Event) (m : M A) : M A := fun w =>
  let '(r, w', evs) := m w in
  match r with
  | Fatal | NoFuel => (r, w', evs)
  | _ => (r, w', evs ++ [e])
  end.

(** ** The reader of the earlier iterations

    The three earlier iterations of the program have a reader without
    the echo flag (src/unnamed/part_000 60-98, part_001 43-81, part_002
    27-65, the same text in all three): it always writes the erase
    sequence and the accepted byte. *)
Module Legacy.

Fixpoint readN_loop (l : N) (onlyIn : bytes)
    (res : bytes) (in_ : N) (s : bytes) {struct s}
    : Res (bytes * N) * bytes * list Event :=
  match s with
  | [] => (Done (res, in_), [], [])          (* err != nil: return *)
  | b :: s' =>
      if byte_eqb b DEL then
        if 0 <? in_ then
          let in' := uint_dec in_ in
          match store res in' SP with
          | None => (Panicked, s', [EvWrite [BS; SP; BS]])
          | Some res' =>
              let '(r, rest, evs) := readN_loop l onlyIn res' in' s' in
              (r, rest, EvWrite [BS; SP; BS] :: evs)
          end
        else readN_loop l onlyIn res in_ s'
      else if byte_eqb b CR then
        (Done (res, in_), s', [EvWrite [LF; CR]])   (* done = true *)
      else if (0 <? length onlyIn)%nat && negb (contains onlyIn b) then
        readN_loop l onlyIn res in_ s'
      else if in_ <? l then
        match store res in_ b with
        | None => (Panicked, s', [EvWrite [b]])
        | Some res' =>
            let '(r, rest, evs) := readN_loop l onlyIn res' (uint_inc in_) s' in
            (r, rest, EvWrite [b] :: evs)
        end
      else readN_loop l onlyIn res in_ s'
  end.

Definition readN_pure (l : N) (onlyIn : bytes) (s : bytes)
    : Res (bytes * N) * bytes * list Event :=
  readN_loop l onlyIn (replicate (N.to_nat l) NUL) 0 s.

End Legacy.

Section Session.

Variable options : Options.
Variable env : Env.

(** [sendmail] (sshauth.go 111-158); [true] when it returns a nil error. *)
Definition sendmail (dest token : bytes) : M bool :=
  emit (EvSendmail dest token) ;;;
  ret (smtp_ok env dest token).

(** [readPassword] (sshauth.go 173-182). *)
Definition readPassword : M (bool * bytes) :=
  p <- readN (PasswordMax options) letters false ;;
  let '(passwd, read) := p in
  if read <? PasswordMin options then ret (false, TOO_SHORT)
  else if negb (passwordRegexp_Match env passwd) then ret (false, NOT_COMPLIANT)
  else ret (true, passwd).

(** [bind] (sshauth.go 184-194); [true] when it returns a nil error. *)
Definition bind : M bool :=
  emit EvLdapBind ;;;
  ret (ldap_bind_ok env).

(** [exists] (sshauth.go 196-210); [None] when the search fails. *)
Definition exists_filter (uid : bytes) : bytes :=
  bytes_of "(&(objectClass=person)(uid=" ++ ldap_EscapeFilter env uid
  ++ bytes_of "))".

Definition exists_ (uid : bytes) : M (option bool) :=
  emit (EvLdapSearch (LdapUserScope options) (exists_filter uid)) ;;;
  match ldap_search env (LdapUserScope options) (exists_filter uid) with
  | None => ret None
  | Some n => ret (Some (0 <? n)%nat)
  end.

(** [register] (sshauth.go 212-233); [true] when it returns a nil error. *)
Definition register (uid email password : bytes) : M bool :=
  let user := bytes_of "uid=" ++ uid ++ bytes_of "," ++ LdapUserScope options in
  emit (EvLdapAdd user (bytes_of "email") [email]) ;;;
  if negb (ldap_add_ok env user) then ret false
  else
    emit (EvLdapPasswordModify user password) ;;;
    if negb (ldap_passwd_ok env user password) then ret false
    else ret true.

(** The public address shown to the user:
    [options.LldapURI.JoinPath("/login").String()]. *)
Definition login_url : bytes :=
  url_JoinPath_String env (LldapURI options) (bytes_of "/login").

(** *** The handler (sshauth.go 239-331), block by block *)

(** Lines 243-249: the welcome prompt and the consent. *)
Definition consent (mail : bytes) : M unit :=
  write (WELCOME_BODY mail) ;;;
  p <- readN 1 [ "y"%byte; "n"%byte ] true ;;
  let '(buf, read) := p in
  if read <? 1 then write BYE ;;; do_return
  else
    b <- index buf 0 ;;
    if negb (byte_eqb b "y"%byte) then write BYE ;;; do_return
    else ret tt.

(** Lines 250-256: the token is drawn and mailed. *)
Definition issue (mail : bytes) : M bytes :=
  token <- randomString (TokenLength options) ;;
  ok <- sendmail mail token ;;
  if negb ok then
    logf (bytes_of "Could not send mail") ;;;
    write MAIL_FAILED ;;;
    do_return
  else
    logf (bytes_of "token for " ++ mail ++ bytes_of " is " ++ token) ;;;
    ret token.

(** Lines 258-272: the token loop, entered with [i]. *)
Fixpoint tokenLoop (fuel : nat) (i : Z) (token : bytes) : M unit :=
  match fuel with
  | O => nofuel
  | S fuel' =>
      write TOKEN_BODY ;;;
      p <- readN (TokenLength options) [] true ;;
      let '(buf, read) := p in
      if negb (read =? TokenLength options) || negb (bytes_eqb buf token) then
        let i := int_dec i in
        if (i =? 0)%Z then write TOKEN_FAILED ;;; do_return
        else write (TOKEN_RETRY i) ;;; tokenLoop fuel' i token
      else ret tt
  end.

(** Lines 293-307: the first password loop, entered with [i]; it leaves
    [passwd] and [i] to the second one. *)
Fixpoint passwordFirst (fuel : nat) (i : Z) : M (bytes * Z) :=
  match fuel with
  | O => nofuel
  | S fuel' =>
      write PASSWORD_PROMPT ;;;
      r <- readPassword ;;
      let '(ok, firstPasswd) := r in
      let i := int_dec i in
      if negb ok then
        write (firstPasswd ++ [LF]) ;;;
        if (i <=? 0)%Z then write PASSWORD_FAILED ;;; do_return
        else passwordFirst fuel' i
      else ret (firstPasswd, i)
  end.

(** Lines 308-325: the confirmation loop. *)
Fixpoint passwordSecond (fuel : nat) (i : Z) (passwd : bytes) : M unit :=
  match fuel with
  | O => nofuel
  | S fuel' =>
      write REPEAT_PROMPT ;;;
      r <- readPassword ;;
      let '(ok, secondPassword) := r in
      let i := int_dec i in
      let '(ok, secondPassword) :=
        if ok && negb (bytes_eqb secondPassword passwd)
        then (false, NO_MATCH) else (ok, secondPassword) in
      if negb ok then
        write (secondPassword ++ [LF]) ;;;
        if (i <=? 0)%Z then write PASSWORD_FAILED ;;; do_return
        else passwordSecond fuel' i passwd
      else ret tt
  end.

(** Lines 292-325: [passwd, i := "", 3] and the two loops. *)
Definition collectPassword : M bytes :=
  r <- passwordFirst 3 3 ;;
  let '(passwd, i) := r in
  passwordSecond 3 i passwd ;;;
  ret passwd.

(** Lines 326-330. *)
Definition registration (user mail passwd : bytes) : M unit :=
  write REGISTERING ;;;
  ok <- register user mail passwd ;;
  if negb ok then
    logf (bytes_of "Error while registering a new user with LDAP") ;;;
    fatal
  else write (ALREADY_REGISTERED login_url).

(** Lines 279-330: from the existence query on, with the connection open. *)
Definition directory (user mail : bytes) : M unit :=
  ex <- exists_ user ;;
  match ex with
  | None => logf (bytes_of "Error while searching LDAP user") ;;; fatal
  | Some true => write (ALREADY_REGISTERED login_url) ;;; do_return
  | Some false =>
      write NOT_REGISTERED ;;;
      write (PASWORD_RULES (PasswordMin options) (PasswordMax options)) ;;;
      passwd <- collectPassword ;;
      registration user mail passwd
  end.

(** Lines 243-272: consent, token issue and token verification. *)
Definition prelude (mail : bytes) : M unit :=
  consent mail ;;;
  token <- issue mail ;;
  tokenLoop 3 3 token.

(** Lines 241-278: up to the bound connection. *)
Definition session (user : bytes) : M unit :=
  let mail := user ++ ToSuffix options in
  prelude mail ;;;
  ok <- bind ;;
  if negb ok then logf (bytes_of "Could not bind to LDAP") ;;; fatal
  else with_defer EvLdapClose (directory user mail).

(** The function given to [ssh.Handle], for the peer [s.User()]. *)
Definition handler (user : bytes) : M unit :=
  with_defer EvClose (session user).


(** ** Specification-side notions for the line reader *)

(** The bytes of a stream before its first carriage return. *)
Fixpoint before_CR (s : bytes) : bytes :=
  match s with
  | [] => []
  | b :: s' => if byte_eqb b CR then [] else b :: before_CR s'
  end.

(** A byte passes the filter when no allowed set is configured or it is
    a member of the set. *)
Definition passes (onlyIn : bytes) (b : byte) : bool :=
  match onlyIn with
  | [] => true
  | _ => contains onlyIn b
  end.

(** The accepted count after one more byte: a backspace erases one
    accepted byte if there is one, a filter-passing byte is appended
    while fewer than [l] are accepted, every other byte is dropped. *)
Definition accept_step (l : N) (onlyIn : bytes) (n : N) (b : byte) : N :=
  if byte_eqb b DEL then N.pred n
  else if passes onlyIn b && (n <? l) then n + 1
  else n.

Definition accepted_count (l : N) (onlyIn : bytes) (s : bytes) : N :=
  fold_left (accept_step l onlyIn) (before_CR s) 0.

(** Echo writes: one accepted byte, and the erase sequence. *)
Definition is_echo (e : Event) : bool :=
  match e with
  | EvWrite [b] => true
  | _ => false
  end.

Definition is_erase (e : Event) : bool :=
  match e with
  | EvWrite [a; b; c] => byte_eqb a BS && byte_eqb b SP && byte_eqb c BS
  | _ => false
  end.

Definition appends (evs : list Event) : N :=
  N.of_nat (length (filter is_echo evs)).
Definition erasures (evs : list Event) : N :=
  N.of_nat (length (filter is_erase evs)).

(** Every slot from [n] on holds the zero byte or the placeholder. *)
Definition tail_blank (res : bytes) (n : N) : Prop :=
  forall j : nat, (N.to_nat n <= j)%nat -> (j < length res)%nat ->
    res !! j = Some NUL \/ res !! j = Some SP.

(** The reader only writes to the stream. *)
Definition is_write (e : Event) : bool :=
  match e with
  | EvWrite _ => true
  | _ => false
  end.

(** What the reader writes is at most three bytes long. *)
Definition short_write (e : Event) : Prop :=
  exists p, e = EvWrite p /\ (length p <= 3)%nat.

(** ** A configuration to run sessions on *)

Definition is_letter (b : byte) : bool :=
  let n := Byte.to_N b in
  ((97 <=? n) && (n <=? 122)) || ((65 <=? n) && (n <=? 90)).
Definition is_digit (b : byte) : bool :=
  let n := Byte.to_N b in (48 <=? n) && (n <=? 57).

(** A pattern that asks for letters and digits only, eight at least, one
    letter and one digit among them. *)
Definition letter_and_digit (p : bytes) : bool :=
  forallb (fun b => is_letter b || is_digit b) p
  && (8 <=? length p)%nat && existsb is_letter p && existsb is_digit p.

Definition demo_options : Options := {|
  Host := bytes_of "0.0.0.0";
  Port := 22;
  TokenLength := 6;
  SMTPServer := bytes_of "localhost:25";
  FromName := bytes_of "SSH-Auth";
  FromAddress := bytes_of "ssh-auth@localhost";
  ToSuffix := bytes_of "@localhost";
  Subject := bytes_of "Your SSH Auth token";
  LdapURI := bytes_of "ldap://localhost:3890";
  LldapURI := bytes_of "https://localhost:17170";
  LdapBindDN := bytes_of "uid=admin,ou=people,dc=example,dc=com";
  LdapBindPassword := bytes_of "admin";
  LdapUserScope := bytes_of "ou=people,dc=example,dc=com";
  PasswordMin := 8;
  PasswordMax := 9;
  PasswordRegexp := bytes_of "^[A-Za-z0-9]{8,}$";
|}.

(** Every call succeeds; the directory holds the user [bob] only. *)
Definition demo_env : Env := {|
  passwordRegexp_Match := letter_and_digit;
  url_JoinPath_String := fun u p => u ++ p;
  ldap_EscapeFilter := fun uid => uid;
  smtp_ok := fun _ _ => true;
  ldap_bind_ok := true;
  ldap_search := fun _ filter =>
    Some (if bytes_eqb filter (bytes_of "(&(objectClass=person)(uid=bob))")
          then 1%nat else 0%nat);
  ldap_add_ok := fun _ => true;
  ldap_passwd_ok := fun _ _ => true;
|}.

(** What the peer types: each line ends with a carriage return. *)
Definition line (s : string) : bytes := bytes_of s ++ [CR].

(** The writes of a trace, in order. *)
Definition writes (evs : list Event) : list bytes :=
  omap (fun e => match e with EvWrite p => Some p | _ => None end) evs.

(** ** Notions for traces of a session *)

(** Events of the steps before the directory: no password prompt and no
    directory operation. *)
Definition quiet (e : Event) : Prop :=
  match e with
  | EvWrite p => p <> PASSWORD_PROMPT /\ p <> REPEAT_PROMPT
  | EvLog _ | EvSendmail _ _ => True
  | _ => False
  end.

(** The directory mutations: add and password-set. *)
Definition is_add (e : Event) : bool :=
  match e with
  | EvLdapAdd _ _ _ => true
  | _ => false
  end.

Definition is_mutation (e : Event) : bool :=
  match e with
  | EvLdapAdd _ _ _ | EvLdapPasswordModify _ _ => true
  | _ => false
  end.

(** The prompts and the rejections of the password collection. *)
Definition is_prompt (e : Event) : bool :=
  match e with
  | EvWrite p => bytes_eqb p PASSWORD_PROMPT || bytes_eqb p REPEAT_PROMPT
  | _ => false
  end.

Definition is_reject (e : Event) : bool :=
  match e with
  | EvWrite p =>
      bytes_eqb p (TOO_SHORT ++ [LF]) || bytes_eqb p (NOT_COMPLIANT ++ [LF])
      || bytes_eqb p (NO_MATCH ++ [LF])
  | _ => false
  end.

(** Attempts made and failures met in a trace of the password
    collection. *)
Definition is_exhausted (e : Event) : bool :=
  match e with
  | EvWrite p => bytes_eqb p PASSWORD_FAILED
  | _ => false
  end.

Definition count (f : Event -> bool) (evs : list Event) : nat :=
  length (List.filter f evs).

Definition attempts (evs : list Event) : nat := count is_prompt evs.
Definition failures (evs : list Event) : nat := count is_reject evs.
Definition exhaustions (evs : list Event) : nat := count is_exhausted evs.

(** The reasons a password attempt is rejected with. *)
Definition is_reason (r : bytes) : Prop :=
  r = TOO_SHORT \/ r = NOT_COMPLIANT \/ r = NO_MATCH.

(** The entry [register] works on: [uid=<uid>,<scope>]. *)
Definition user_dn (uid : bytes) : bytes :=
  bytes_of "uid=" ++ uid ++ bytes_of "," ++ LdapUserScope options.

(** The deferred calls of the handler that run after outcome [r] once
    the directory connection is open. *)
Definition closes {A} (r : Res A) : list Event :=
  match r with
  | Fatal | NoFuel => []
  | _ => [EvLdapClose; EvClose]
  end.


(** The comparison of one token attempt (sshauth.go 261): the count is
    the token length and the buffer equals the token byte for byte. *)
Definition token_ok (token buf : bytes) (read : N) : bool :=
  (read =? TokenLength options) && bytes_eqb buf token.

(** Validation as the specification words it, on the candidate as typed:
    too short when the length is outside the bounds, a rule violation
    when the pattern does not match, accepted otherwise. *)
Definition validate_spec (cand : bytes) : bool * bytes :=
  let n := N.of_nat (length cand) in
  if (n <? PasswordMin options) || (PasswordMax options <? n)
  then (false, TOO_SHORT)
  else if negb (passwordRegexp_Match env cand) then (false, NOT_COMPLIANT)
  else (true, cand).

(** The slice a read of the typed line [cand] leaves: its first [l]
    bytes, and zero bytes up to [l]. *)
Definition filled (l : nat) (cand : bytes) : bytes :=
  take l cand ++ replicate (l - length cand) NUL.

(** Worlds for the demonstration sessions: the random source draws the
    token [aaaaaa]. *)
Definition demo_rng : list N := [0; 0; 0; 0; 0; 0].

(** Consent, the token, a short password, then the password twice. *)
Definition world_registers : World :=
  mkWorld (line "y" ++ line "aaaaaa" ++ line "abc"
           ++ line "Abcdefgh1" ++ line "Abcdefgh1") demo_rng.

(** Consent and the token. *)
Definition world_token_only : World :=
  mkWorld (line "y" ++ line "aaaaaa") demo_rng.

(** A wrong token, a short one, the token. *)
Definition world_token_third : World :=
  mkWorld (line "bbbbbb" ++ line "aaa" ++ line "aaaaaa") demo_rng.

(** A valid password, then two entries that do not repeat it. *)
Definition world_two_mismatches : World :=
  mkWorld (line "Abcdefgh1" ++ line "Abcdefgh2" ++ line "Abcdefgh3") [].

(** Two rejected passwords, a valid one, and its repetition. *)
Definition world_last_unit : World :=
  mkWorld (line "abc" ++ line "abcdefghi" ++ line "Abcdefgh1"
           ++ line "Abcdefgh1") [].

(** The peer declines. *)
Definition world_declines : World := mkWorld (line "n") demo_rng.

(** Consent, then three wrong tokens; the third line is short. *)
Definition world_wrong_tokens : World :=
  mkWorld (line "y" ++ line "bbbbbb" ++ line "cccccc" ++ line "aaa") demo_rng.

(** A candidate one byte longer than the maximum of nine. *)
Definition world_overlong : World := mkWorld (line "Abcdefgh12") [].

(** ** Notions for the further properties *)

(** A byte the reader can append: not the backspace, not the carriage
    return, and passing the filter. *)
Definition appendable (onlyIn : bytes) (b : byte) : Prop :=
  b <> DEL /\ b <> CR /\ passes onlyIn b = true.

(** Letters and digits. *)
Definition is_alnum (b : byte) : bool := is_letter b || is_digit b.

(** Everything the password collection can write. *)
Definition password_messages : list bytes :=
  [PASSWORD_PROMPT; REPEAT_PROMPT; [LF; CR]; TOO_SHORT ++ [LF];
   NOT_COMPLIANT ++ [LF]; NO_MATCH ++ [LF]; PASSWORD_FAILED].

Definition is_sendmail (e : Event) : bool :=
  match e with
  | EvSendmail _ _ => true
  | _ => false
  end.

Definition is_ldap (e : Event) : bool :=
  match e with
  | EvLdapBind | EvLdapSearch _ _ | EvLdapAdd _ _ _
  | EvLdapPasswordModify _ _ | EvLdapClose => true
  | _ => false
  end.

(** Events of the directory part of a session, the deferred calls
    excluded. *)
Definition in_directory (e : Event) : bool :=
  match e with
  | EvWrite _ | EvLog _ | EvLdapSearch _ _ | EvLdapAdd _ _ _
  | EvLdapPasswordModify _ _ => true
  | _ => false
  end.

Definition is_token_prompt (e : Event) : bool :=
  match e with
  | EvWrite p => bytes_eqb p TOKEN_BODY
  | _ => false
  end.

(** Events that come before the mail: no mail and no token prompt. *)
Definition before_mail (e : Event) : Prop :=
  is_sendmail e = false /\ is_token_prompt e = false.

(** The world [randomString] leaves: the next [TokenLength] numbers of
    the random source are used up. *)
Definition after_token (w : World) : World :=
  mkWorld (stream w) (drop (N.to_nat (TokenLength options)) (rng w)).

(** The entry of the token in the operator log. *)
Definition token_log (mail token : bytes) : Event :=
  EvLog (bytes_of "token for " ++ mail ++ bytes_of " is " ++ token).

(** The SMTP server refuses every mail. *)
Definition demo_env_no_mail : Env := {|
  passwordRegexp_Match := letter_and_digit;
  url_JoinPath_String := fun u p => u ++ p;
  ldap_EscapeFilter := fun uid => uid;
  smtp_ok := fun _ _ => false;
  ldap_bind_ok := true;
  ldap_search := fun _ _ => Some 0%nat;
  ldap_add_ok := fun _ => true;
  ldap_passwd_ok := fun _ _ => true;
|}.

(** The directory adds entries and refuses to set passwords. *)
Definition demo_env_no_passwd : Env := {|
  passwordRegexp_Match := letter_and_digit;
  url_JoinPath_String := fun u p => u ++ p;
  ldap_EscapeFilter := fun uid => uid;
  smtp_ok := fun _ _ => true;
  ldap_bind_ok := true;
  ldap_search := fun _ _ => Some 0%nat;
  ldap_add_ok := fun _ => true;
  ldap_passwd_ok := fun _ _ => false;
|}.

(** The directory refuses to add entries. *)
Definition demo_env_no_add : Env := {|
  passwordRegexp_Match := letter_and_digit;
  url_JoinPath_String := fun u p => u ++ p;
  ldap_EscapeFilter := fun uid => uid;
  smtp_ok := fun _ _ => true;
  ldap_bind_ok := true;
  ldap_search := fun _ _ => Some 0%nat;
  ldap_add_ok := fun _ => false;
  ldap_passwd_ok := fun _ _ => true;
|}.

(** A token length of zero. *)
Definition demo_options_no_token : Options := {|
  Host := bytes_of "0.0.0.0";
  Port := 22;
  TokenLength := 0;
  SMTPServer := bytes_of "localhost:25";
  FromName := bytes_of "SSH-Auth";
  FromAddress := bytes_of "ssh-auth@localhost";
  ToSuffix := bytes_of "@localhost";
  Subject := bytes_of "Your SSH Auth token";
  LdapURI := bytes_of "ldap://localhost:3890";
  LldapURI := bytes_of "https://localhost:17170";
  LdapBindDN := bytes_of "uid=admin,ou=people,dc=example,dc=com";
  LdapBindPassword := bytes_of "admin";
  LdapUserScope := bytes_of "ou=people,dc=example,dc=com";
  PasswordMin := 8;
  PasswordMax := 9;
  PasswordRegexp := bytes_of "^[A-Za-z0-9]{8,}$";
|}.

(** The peer types and disconnects before ending the line. *)
Definition world_cut_off : World := mkWorld (bytes_of "yAbcdefgh1") demo_rng.

(** Consent and the drawn token, nothing more. *)
Definition world_consents : World := mkWorld (line "y") demo_rng.

(** A candidate of eight characters, one fewer than the maximum. *)
Definition world_short_password : World := mkWorld (line "Abcdefg1") [].

(** A valid password typed without ending the line. *)
Definition world_password_cut : World := mkWorld (bytes_of "Abcdefgh1") [].

(** The directory refuses the bind. *)
Definition demo_env_no_bind : Env := {|
  passwordRegexp_Match := letter_and_digit;
  url_JoinPath_String := fun u p => u ++ p;
  ldap_EscapeFilter := fun uid => uid;
  smtp_ok := fun _ _ => true;
  ldap_bind_ok := false;
  ldap_search := fun _ _ => None;
  ldap_add_ok := fun _ => true;
  ldap_passwd_ok := fun _ _ => true;
|}.

(** A pattern without anchors: a letter and a digit occur somewhere in
    the string. *)
Definition has_letter_and_digit (p : bytes) : bool :=
  existsb is_letter p && existsb is_digit p.

(** The lengths the repository sets by default: a token of six bytes,
    passwords of eight to thirty-two bytes. *)
Definition default_length_options : Options := {|
  Host := bytes_of "0.0.0.0";
  Port := 22;
  TokenLength := 6;
  SMTPServer := bytes_of "localhost:25";
  FromName := bytes_of "SSH-Auth";
  FromAddress := bytes_of "ssh-auth@localhost";
  ToSuffix := bytes_of "@localhost";
  Subject := bytes_of "Your SSH Auth token";
  LdapURI := bytes_of "ldap://localhost:3890";
  LldapURI := bytes_of "https://localhost:17170";
  LdapBindDN := bytes_of "uid=admin,ou=people,dc=example,dc=com";
  LdapBindPassword := bytes_of "admin";
  LdapUserScope := bytes_of "ou=people,dc=example,dc=com";
  PasswordMin := 8;
  PasswordMax := 32;
  PasswordRegexp := bytes_of "(?s)[A-Za-z].*[0-9]|[0-9].*[A-Za-z]";
|}.

(** Every call succeeds, the directory holds the user [bob] only, and the
    pattern has no anchors. *)
Definition demo_env_unanchored : Env := {|
  passwordRegexp_Match := has_letter_and_digit;
  url_JoinPath_String := fun u p => u ++ p;
  ldap_EscapeFilter := fun uid => uid;
  smtp_ok := fun _ _ => true;
  ldap_bind_ok := true;
  ldap_search := fun _ filter =>
    Some (if bytes_eqb filter (bytes_of "(&(objectClass=person)(uid=bob))")
          then 1%nat else 0%nat);
  ldap_add_ok := fun _ => true;
  ldap_passwd_ok := fun _ _ => true;
|}.

(** ** Basic facts *)

Example readN_ex1 :
  readN_pure 3 [] true (bytes_of "ab" ++ [DEL] ++ bytes_of "cde" ++ [CR; x41])
  = (Done (bytes_of "acd", 3), [x41],
     [EvWrite (bytes_of "a"); EvWrite (bytes_of "b"); EvWrite [BS; SP; BS];
      EvWrite (bytes_of "c"); EvWrite (bytes_of "d"); EvWrite [LF; CR]]).
Proof. reflexivity. Qed.


Lemma byte_eqb_eq (a b : byte) : byte_eqb a b = true <-> a = b.
Proof.
  unfold byte_eqb; split.
  - apply Byte.byte_dec_bl.
  - apply Byte.byte_dec_lb.
Qed.

Lemma byte_eqb_neq (a b : byte) : byte_eqb a b = false <-> a <> b.
Proof.
  split.
  - intros H E. apply byte_eqb_eq in E. congruence.
  - intros H. destruct (byte_eqb a b) eqn:E; [|reflexivity].
    apply byte_eqb_eq in E. contradiction.
Qed.

Lemma byte_eqb_refl (a : byte) : byte_eqb a a = true.
Proof. now apply byte_eqb_eq. Qed.

Lemma bytes_eqb_eq (a b : bytes) : bytes_eqb a b = true <-> a = b.
Proof.
  revert b; induction a as [|x a IH]; intros [|y b]; simpl; split;
    try congruence; try reflexivity.
  - intros H. apply andb_true_iff in H as [H1 H2].
    apply byte_eqb_eq in H1. apply IH in H2. congruence.
  - intros H. injection H as -> ->.
    rewrite byte_eqb_refl. simpl. now apply IH.
Qed.

Lemma bytes_eqb_refl (a : bytes) : bytes_eqb a a = true.
Proof. now apply bytes_eqb_eq. Qed.

Lemma uint_dec_pos (n : N) : 0 < n -> n < uint_mod -> uint_dec n = n - 1.
Proof.
  intros H0 H1. unfold uint_dec.
  replace (n + uint_mod - 1) with (n - 1 + 1 * uint_mod) by lia.
  rewrite N.Div0.mod_add. apply N.mod_small. lia.
Qed.

Lemma uint_inc_small (n : N) : n + 1 < uint_mod -> uint_inc n = n + 1.
Proof. intros H. unfold uint_inc. now apply N.mod_small. Qed.

Lemma store_in_range (res : bytes) (i : N) (v : byte) :
  (N.to_nat i < length res)%nat ->
  store res i v = Some (<[N.to_nat i := v]> res).
Proof.
  intros H. unfold store.
  destruct (i <? N.of_nat (length res)) eqn:E; [reflexivity|].
  apply N.ltb_ge in E. lia.
Qed.

Lemma passes_guard (onlyIn : bytes) (b : byte) :
  (0 <? length onlyIn)%nat && negb (contains onlyIn b) = negb (passes onlyIn b).
Proof. destruct onlyIn; reflexivity. Qed.

Lemma tail_blank_replicate (l : nat) : tail_blank (replicate l NUL) 0.
Proof.
  intros j _ Hj. left. rewrite length_replicate in Hj.
  now apply lookup_replicate_2.
Qed.

Lemma tail_blank_erase (res : bytes) (n : N) :
  0 < n -> tail_blank res n ->
  tail_blank (<[N.to_nat (n - 1) := SP]> res) (n - 1).
Proof.
  intros Hn Ht j Hj Hlen. rewrite length_insert in Hlen.
  destruct (decide (j = N.to_nat (n - 1))) as [->|Hne].
  - right. now apply list_lookup_insert_eq.
  - rewrite list_lookup_insert_ne by congruence. apply Ht; lia.
Qed.

Lemma tail_blank_append (res : bytes) (n : N) (b : byte) :
  tail_blank res n -> tail_blank (<[N.to_nat n := b]> res) (n + 1).
Proof.
  intros Ht j Hj Hlen. rewrite length_insert in Hlen.
  rewrite list_lookup_insert_ne by lia. apply Ht; lia.
Qed.

(** ** The loop of the line reader *)

Lemma appends_cons_echo (b : byte) (evs : list Event) :
  appends (EvWrite [b] :: evs) = appends evs + 1.
Proof. unfold appends. simpl. lia. Qed.

Lemma erasures_cons_echo (b : byte) (evs : list Event) :
  erasures (EvWrite [b] :: evs) = erasures evs.
Proof. reflexivity. Qed.

Lemma appends_cons_erase (evs : list Event) :
  appends (EvWrite [BS; SP; BS] :: evs) = appends evs.
Proof. reflexivity. Qed.

Lemma erasures_cons_erase (evs : list Event) :
  erasures (EvWrite [BS; SP; BS] :: evs) = erasures evs + 1.
Proof. unfold erasures. simpl. lia. Qed.

Lemma count_at_CR (l : N) (onlyIn : bytes) (b : byte) (s : bytes) (n : N) :
  byte_eqb b CR = true ->
  fold_left (accept_step l onlyIn) (before_CR (b :: s)) n = n.
Proof. intros H. simpl. now rewrite H. Qed.

Lemma count_step (l : N) (onlyIn : bytes) (b : byte) (s : bytes) (n : N) :
  byte_eqb b CR = false ->
  fold_left (accept_step l onlyIn) (before_CR (b :: s)) n
  = fold_left (accept_step l onlyIn) (before_CR s) (accept_step l onlyIn n b).
Proof. intros H. simpl. now rewrite H. Qed.

(** From a state within bounds the loop never panics; it keeps the
    length of the buffer, the bound on the count and the blank tail, and
    its count is the one the specification computes. *)
Lemma readN_loop_inv (l : N) (onlyIn : bytes) (wr : bool) :
  l < uint_mod ->
  forall (s res : bytes) (in_ : N),
    length res = N.to_nat l -> in_ <= l ->
    exists res' n rest evs,
      readN_loop l onlyIn wr res in_ s = (Done (res', n), rest, evs)
      /\ length res' = N.to_nat l
      /\ n <= l
      /\ n = fold_left (accept_step l onlyIn) (before_CR s) in_
      /\ (tail_blank res in_ -> tail_blank res' n)
      /\ (wr = true -> n + erasures evs = in_ + appends evs)
      /\ (wr = false -> Forall (fun e => e = EvWrite [LF; CR]) evs).
Proof.
  intros Hl s. induction s as [|b s IH]; intros res in_ Hlen Hin.
  - exists res, in_, [], []. simpl. repeat split; auto.
  - destruct (byte_eqb b CR) eqn:Hcr.
    { exists res, in_, s, [EvWrite [LF; CR]].
      rewrite (count_at_CR _ _ _ _ _ Hcr). simpl. rewrite Hcr.
      destruct (byte_eqb b DEL) eqn:Hdel.
      - apply byte_eqb_eq in Hdel. subst b. discriminate Hcr.
      - repeat split; auto. }
    rewrite (count_step _ _ _ _ _ Hcr). simpl. rewrite Hcr.
    unfold accept_step at 2.
    destruct (byte_eqb b DEL) eqn:Hdel.
    + destruct (0 <? in_) eqn:Hpos.
      * apply N.ltb_lt in Hpos.
        rewrite uint_dec_pos by lia.
        rewrite store_in_range by lia.
        destruct (IH (<[N.to_nat (in_ - 1) := SP]> res) (in_ - 1))
          as (res' & n & rest & evs & E & H1 & H2 & H3 & H4 & H5 & H6);
          [rewrite length_insert; exact Hlen | lia |].
        rewrite E. exists res', n, rest.
        eexists. split; [reflexivity|].
        rewrite N.sub_1_r in H3.
        repeat split; auto.
        -- intros Ht. apply H4. now apply tail_blank_erase.
        -- intros ->. simpl. rewrite appends_cons_erase, erasures_cons_erase.
           specialize (H5 eq_refl). lia.
        -- intros ->. simpl. auto.
      * apply N.ltb_ge in Hpos. assert (in_ = 0) as -> by lia. simpl.
        apply (IH res 0 Hlen Hin).
    + rewrite passes_guard.
      destruct (passes onlyIn b) eqn:Hp; simpl.
      * destruct (in_ <? l) eqn:Hlt.
        -- apply N.ltb_lt in Hlt.
           rewrite uint_inc_small by lia.
           rewrite store_in_range by lia.
           destruct (IH (<[N.to_nat in_ := b]> res) (in_ + 1))
             as (res' & n & rest & evs & E & H1 & H2 & H3 & H4 & H5 & H6);
             [rewrite length_insert; exact Hlen | lia |].
           rewrite E. exists res', n, rest.
           eexists. split; [reflexivity|].
           repeat split; auto.
           ++ intros Ht. apply H4. now apply tail_blank_append.
           ++ intros ->. simpl.
              rewrite appends_cons_echo, erasures_cons_echo.
              specialize (H5 eq_refl). lia.
           ++ intros ->. simpl. auto.
        -- apply (IH res in_ Hlen Hin).
      * apply (IH res in_ Hlen Hin).
Qed.

(** Reading [pre ++ s2], where [pre] holds no carriage return, is
    reading [pre] to its end and going on over [s2] from the state
    reached. *)
Lemma readN_loop_app (l : N) (onlyIn : bytes) (wr : bool) (s2 : bytes) :
  forall (pre res : bytes) (in_ : N) res1 n1 rest1 evs1,
    CR ∉ pre ->
    readN_loop l onlyIn wr res in_ pre = (Done (res1, n1), rest1, evs1) ->
    rest1 = []
    /\ readN_loop l onlyIn wr res in_ (pre ++ s2)
       = (let '(r, rest, evs2) := readN_loop l onlyIn wr res1 n1 s2 in
          (r, rest, evs1 ++ evs2)).
Proof.
  induction pre as [|b pre IH]; intros res in_ res1 n1 rest1 evs1 Hcr E.
  - simpl in E. injection E as <- <- <- <-. split; [reflexivity|].
    simpl. now destruct (readN_loop l onlyIn wr res in_ s2) as [[r rest] evs2].
  - apply not_elem_of_cons in Hcr as [Hb Hcr].
    assert (byte_eqb b CR = false) as Hbcr
      by (apply byte_eqb_neq; congruence).
    simpl in E |- *. rewrite Hbcr in E |- *.
    destruct (byte_eqb b DEL).
    + destruct (0 <? in_).
      * destruct (store res (uint_dec in_) SP) as [res'|]; [|discriminate E].
        destruct (readN_loop l onlyIn wr res' (uint_dec in_) pre)
          as [[r0 rest0] evs0] eqn:E0.
        injection E as -> <- <-.
        destruct (IH _ _ _ _ _ _ Hcr E0) as [-> ->].
        split; [reflexivity|].
        destruct (readN_loop l onlyIn wr res1 n1 s2) as [[r rest] evs2].
        now rewrite app_assoc.
      * now apply IH.
    + destruct ((0 <? length onlyIn)%nat && negb (contains onlyIn b)).
      * now apply IH.
      * destruct (in_ <? l).
        -- destruct (store res in_ b) as [res'|]; [|discriminate E].
           destruct (readN_loop l onlyIn wr res' (uint_inc in_) pre)
             as [[r0 rest0] evs0] eqn:E0.
           injection E as -> <- <-.
           destruct (IH _ _ _ _ _ _ Hcr E0) as [-> ->].
           split; [reflexivity|].
           destruct (readN_loop l onlyIn wr res1 n1 s2) as [[r rest] evs2].
           now rewrite app_assoc.
        -- now apply IH.
Qed.

(** The echo flag changes the writes only. *)
Lemma readN_loop_echo_indep (l : N) (onlyIn : bytes) (wr wr' : bool) :
  forall (s res : bytes) (in_ : N),
    (readN_loop l onlyIn wr res in_ s).1 = (readN_loop l onlyIn wr' res in_ s).1.
Proof.
  induction s as [|b s IH]; intros res in_; [reflexivity|].
  simpl.
  destruct (byte_eqb b DEL).
  - destruct (0 <? in_); [|apply IH].
    destruct (store res (uint_dec in_) SP) as [res'|]; [|reflexivity].
    specialize (IH res' (uint_dec in_)).
    destruct (readN_loop l onlyIn wr res' (uint_dec in_) s) as [[r rest] evs].
    destruct (readN_loop l onlyIn wr' res' (uint_dec in_) s) as [[r' rest'] evs'].
    exact IH.
  - destruct (byte_eqb b CR); [reflexivity|].
    destruct ((0 <? length onlyIn)%nat && negb (contains onlyIn b)); [apply IH|].
    destruct (in_ <? l); [|apply IH].
    destruct (store res in_ b) as [res'|]; [|reflexivity].
    specialize (IH res' (uint_inc in_)).
    destruct (readN_loop l onlyIn wr res' (uint_inc in_) s) as [[r rest] evs].
    destruct (readN_loop l onlyIn wr' res' (uint_inc in_) s) as [[r' rest'] evs'].
    exact IH.
Qed.

Lemma readN_loop_short_writes (l : N) (onlyIn : bytes) (wr : bool) :
  forall (s res : bytes) (in_ : N),
    Forall short_write (readN_loop l onlyIn wr res in_ s).2.
Proof.
  assert (Hev : forall p, (length p <= 3)%nat ->
    Forall short_write (if wr then [EvWrite p] else [])).
  { intros p Hp. destruct wr; repeat constructor. exists p. auto. }
  induction s as [|b s IH]; intros res in_; [constructor|].
  simpl.
  destruct (byte_eqb b DEL).
  - destruct (0 <? in_); [|apply IH].
    destruct (store res (uint_dec in_) SP) as [res'|].
    + specialize (IH res' (uint_dec in_)).
      destruct (readN_loop l onlyIn wr res' (uint_dec in_) s) as [[r rest] evs].
      simpl in *. apply Forall_app. split; [apply Hev; simpl; lia | exact IH].
    + simpl. apply Hev. simpl. lia.
  - destruct (byte_eqb b CR).
    { repeat constructor. exists [LF; CR]. simpl. split; [reflexivity|lia]. }
    destruct ((0 <? length onlyIn)%nat && negb (contains onlyIn b)); [apply IH|].
    destruct (in_ <? l); [|apply IH].
    destruct (store res in_ b) as [res'|].
    + specialize (IH res' (uint_inc in_)).
      destruct (readN_loop l onlyIn wr res' (uint_inc in_) s) as [[r rest] evs].
      simpl in *. apply Forall_app. split; [apply Hev; simpl; lia | exact IH].
    + simpl. apply Hev. simpl. lia.
Qed.

(** Without echo the reader writes nothing before the carriage return. *)
Lemma readN_loop_silent (l : N) (onlyIn : bytes) :
  forall (s res : bytes) (in_ : N),
    CR ∉ s -> (readN_loop l onlyIn false res in_ s).2 = [].
Proof.
  induction s as [|b s IH]; intros res in_ Hcr; [reflexivity|].
  apply not_elem_of_cons in Hcr as [Hb Hcr].
  assert (byte_eqb b CR = false) as Hbcr by (apply byte_eqb_neq; congruence).
  simpl. rewrite Hbcr.
  destruct (byte_eqb b DEL).
  - destruct (0 <? in_); [|now apply IH].
    destruct (store res (uint_dec in_) SP) as [res'|]; [|reflexivity].
    specialize (IH res' (uint_dec in_) Hcr).
    destruct (readN_loop l onlyIn false res' (uint_dec in_) s) as [[r rest] evs].
    exact IH.
  - destruct ((0 <? length onlyIn)%nat && negb (contains onlyIn b));
      [now apply IH|].
    destruct (in_ <? l); [|now apply IH].
    destruct (store res in_ b) as [res'|]; [|reflexivity].
    specialize (IH res' (uint_inc in_) Hcr).
    destruct (readN_loop l onlyIn false res' (uint_inc in_) s) as [[r rest] evs].
    exact IH.
Qed.

(** The reader as a whole: it returns, with a buffer of length [l], a
    count within [l] and a blank tail. *)
Lemma readN_pure_inv (l : N) (onlyIn : bytes) (wr : bool) (s : bytes) :
  l < uint_mod ->
  exists res n rest evs,
    readN_pure l onlyIn wr s = (Done (res, n), rest, evs)
    /\ length res = N.to_nat l
    /\ n <= l
    /\ n = accepted_count l onlyIn s
    /\ tail_blank res n
    /\ (wr = true -> n + erasures evs = appends evs)
    /\ (wr = false -> Forall (fun e => e = EvWrite [LF; CR]) evs).
Proof.
  intros Hl. unfold readN_pure, accepted_count.
  destruct (readN_loop_inv l onlyIn wr Hl s (replicate (N.to_nat l) NUL) 0)
    as (res & n & rest & evs & E & H1 & H2 & H3 & H4 & H5 & H6).
  - apply length_replicate.
  - lia.
  - exists res, n, rest, evs. repeat split; auto.
    apply H4, tail_blank_replicate.
Qed.

(** Reading up to and including the first carriage return. *)
Lemma readN_pure_CR (l : N) (onlyIn : bytes) (wr : bool) (pre post : bytes)
    res n evs0 :
  CR ∉ pre ->
  readN_pure l onlyIn wr pre = (Done (res, n), [], evs0) ->
  readN_pure l onlyIn wr (pre ++ CR :: post)
  = (Done (res, n), post, evs0 ++ [EvWrite [LF; CR]]).
Proof.
  intros Hcr E. unfold readN_pure in *.
  destruct (readN_loop_app l onlyIn wr (CR :: post) _ _ _ _ _ _ _ Hcr E)
    as [_ ->].
  reflexivity.
Qed.

(** C7: For every maximum length L below the range of [uint], allowed
    set and byte stream, the line reader returns a count that is at most
    L, equals the count of accepted bytes the specification computes over
    the bytes before the first carriage return (a filter-passing byte
    appends while fewer than L are accepted, a backspace erases one), and
    is the number of appended bytes minus the number of erasures, as the
    echo shows them.  A carriage return ends the read: the bytes after it
    stay unread, and the newline and carriage return are the last write
    whatever the echo flag, and the only write without echo. *)
Theorem readN_count (l : N) (onlyIn : bytes) (wr : bool) (s : bytes) :
  l < uint_mod ->
  exists res n rest evs,
    readN_pure l onlyIn wr s = (Done (res, n), rest, evs)
    /\ n <= l
    /\ n = accepted_count l onlyIn s
    /\ n + erasures (readN_pure l onlyIn true s).2
       = appends (readN_pure l onlyIn true s).2
    /\ (forall pre post, s = pre ++ CR :: post -> CR ∉ pre ->
          rest = post
          /\ exists evs0,
               readN_pure l onlyIn wr pre = (Done (res, n), [], evs0)
               /\ evs = evs0 ++ [EvWrite [LF; CR]]
               /\ (wr = false -> evs0 = [])).
Proof.
  intros Hl.
  destruct (readN_pure_inv l onlyIn wr s Hl)
    as (res & n & rest & evs & E & H1 & H2 & H3 & H4 & H5 & H6).
  exists res, n, rest, evs. repeat split; auto.
  - destruct (readN_pure_inv l onlyIn true s Hl)
      as (res' & n' & rest' & evs' & E' & _ & _ & H3' & _ & H5' & _).
    rewrite E'. simpl. rewrite H3, <- H3'. now apply H5'.
  - destruct (readN_pure_inv l onlyIn wr pre Hl)
      as (res0 & n0 & rest0 & evs0 & E0 & _).
    assert (rest0 = []) as ->.
    { unfold readN_pure in E0.
      now destruct (readN_loop_app l onlyIn wr [] _ _ _ _ _ _ _ H0 E0). }
    rewrite H, (readN_pure_CR _ _ _ _ post _ _ _ H0 E0) in E.
    congruence.
  - destruct (readN_pure_inv l onlyIn wr pre Hl)
      as (res0 & n0 & rest0 & evs0 & E0 & _).
    assert (rest0 = []) as ->.
    { unfold readN_pure in E0.
      now destruct (readN_loop_app l onlyIn wr [] _ _ _ _ _ _ _ H0 E0). }
    rewrite H, (readN_pure_CR _ _ _ _ post _ _ _ H0 E0) in E.
    injection E as <- <- <- <-.
    exists evs0. repeat split; auto.
    intros ->. pose proof (readN_loop_silent l onlyIn pre
      (replicate (N.to_nat l) NUL) 0 H0) as Hs.
    unfold readN_pure in E0. now rewrite E0 in Hs.
Qed.

Lemma readN_count_witness :
  3 < uint_mod
  /\ exists res n rest evs,
       readN_pure 3 letters false (bytes_of "ab-" ++ [DEL] ++ bytes_of "cdef" ++ [CR; x41])
       = (Done (res, n), rest, evs)
       /\ n <= 3
       /\ n = accepted_count 3 letters (bytes_of "ab-" ++ [DEL] ++ bytes_of "cdef" ++ [CR; x41])
       /\ n + erasures (readN_pure 3 letters true (bytes_of "ab-" ++ [DEL] ++ bytes_of "cdef" ++ [CR; x41])).2
          = appends (readN_pure 3 letters true (bytes_of "ab-" ++ [DEL] ++ bytes_of "cdef" ++ [CR; x41])).2
       /\ (forall pre post,
             bytes_of "ab-" ++ [DEL] ++ bytes_of "cdef" ++ [CR; x41] = pre ++ CR :: post ->
             CR ∉ pre ->
             rest = post
             /\ exists evs0,
                  readN_pure 3 letters false pre = (Done (res, n), [], evs0)
                  /\ evs = evs0 ++ [EvWrite [LF; CR]]
                  /\ (false = false -> evs0 = [])).
Proof.
  split; [reflexivity|].
  apply (readN_count 3 letters false
           (bytes_of "ab-" ++ [DEL] ++ bytes_of "cdef" ++ [CR; x41])).
  reflexivity.
Defined.

(** C8: In the line reader a backspace received when zero characters are
    accepted is a no-op: the read goes on exactly as if the byte had not
    been sent.  The count never underflows: the decrement, which would
    wrap around at zero, leaves it within L at every point of the read.
    When at least one character is accepted, a backspace decrements the
    count by one and overwrites the freed slot with the space placeholder
    (writing the erase sequence only with echo). *)
Theorem readN_backspace (l : N) (onlyIn : bytes) (wr : bool) (pre : bytes) :
  l < uint_mod -> CR ∉ pre ->
  exists res n evs,
    readN_pure l onlyIn wr pre = (Done (res, n), [], evs)
    /\ n <= l
    /\ (n = 0 -> forall rest,
          readN_pure l onlyIn wr (pre ++ DEL :: rest)
          = readN_pure l onlyIn wr (pre ++ rest))
    /\ (0 < n ->
          readN_pure l onlyIn wr (pre ++ [DEL])
          = (Done (<[N.to_nat (n - 1) := SP]> res, n - 1), [],
             evs ++ (if wr then [EvWrite [BS; SP; BS]] else []))).
Proof.
  intros Hl Hcr.
  destruct (readN_pure_inv l onlyIn wr pre Hl)
    as (res & n & rest0 & evs & E & H1 & H2 & _).
  unfold readN_pure in *.
  assert (rest0 = []) as ->
    by now destruct (readN_loop_app l onlyIn wr [] _ _ _ _ _ _ _ Hcr E).
  exists res, n, evs. repeat split; auto.
  - intros -> rest.
    destruct (readN_loop_app l onlyIn wr (DEL :: rest) _ _ _ _ _ _ _ Hcr E)
      as [_ ->].
    destruct (readN_loop_app l onlyIn wr rest _ _ _ _ _ _ _ Hcr E)
      as [_ ->].
    reflexivity.
  - intros Hn.
    destruct (readN_loop_app l onlyIn wr [DEL] _ _ _ _ _ _ _ Hcr E)
      as [_ ->].
    simpl. apply N.ltb_lt in Hn as Hb. rewrite Hb.
    rewrite uint_dec_pos by lia.
    rewrite store_in_range by lia.
    now rewrite app_nil_r.
Qed.

Lemma readN_backspace_witness :
  (2 < uint_mod /\ CR ∉ [DEL; x61; x62; DEL])
  /\ exists res n evs,
       readN_pure 2 [] true [DEL; x61; x62; DEL] = (Done (res, n), [], evs)
       /\ n <= 2
       /\ (n = 0 -> forall rest,
             readN_pure 2 [] true ([DEL; x61; x62; DEL] ++ DEL :: rest)
             = readN_pure 2 [] true ([DEL; x61; x62; DEL] ++ rest))
       /\ (0 < n ->
             readN_pure 2 [] true ([DEL; x61; x62; DEL] ++ [DEL])
             = (Done (<[N.to_nat (n - 1) := SP]> res, n - 1), [],
                evs ++ [EvWrite [BS; SP; BS]])).
Proof.
  assert (Hcr : CR ∉ [DEL; x61; x62; DEL]).
  { intros H. repeat (apply elem_of_cons in H as [H|H]; [discriminate H|]).
    now apply elem_of_nil in H. }
  split; [split; [reflexivity | exact Hcr]|].
  exact (readN_backspace 2 [] true [DEL; x61; x62; DEL] eq_refl Hcr).
Defined.

(** C10: For every call the line reader returns a buffer whose length is
    exactly the requested maximum L, however many bytes were accepted;
    every position at or beyond the accepted count holds the zero byte or
    the space placeholder.  Only the count tells short input apart: two
    reads can return the same buffer with different counts, be the blank
    a placeholder or a zero byte. *)
Theorem readN_buffer (l : N) (onlyIn : bytes) (wr : bool) (s : bytes) :
  l < uint_mod ->
  (exists res n rest evs,
     readN_pure l onlyIn wr s = (Done (res, n), rest, evs)
     /\ length res = N.to_nat l
     /\ forall j : nat, (N.to_nat n <= j < N.to_nat l)%nat ->
          res !! j = Some NUL \/ res !! j = Some SP)
  /\ (readN_pure 1 [] wr [SP; CR]).1.1 = Done ([SP], 1)
  /\ (readN_pure 1 [] wr [x61; DEL; CR]).1.1 = Done ([SP], 0)
  /\ (readN_pure 1 [] wr [NUL; CR]).1.1 = Done ([NUL], 1)
  /\ (readN_pure 1 [] wr [CR]).1.1 = Done ([NUL], 0).
Proof.
  intros Hl. split.
  - destruct (readN_pure_inv l onlyIn wr s Hl)
      as (res & n & rest & evs & E & H1 & H2 & H3 & H4 & _).
    exists res, n, rest, evs. repeat split; auto.
    intros j [Hj1 Hj2]. apply H4; lia.
  - destruct wr; repeat split; reflexivity.
Qed.

Lemma readN_buffer_witness :
  4 < uint_mod
  /\ (exists res n rest evs,
        readN_pure 4 letters false (bytes_of "ab" ++ [DEL; CR])
        = (Done (res, n), rest, evs)
        /\ length res = N.to_nat 4
        /\ forall j : nat, (N.to_nat n <= j < N.to_nat 4)%nat ->
             res !! j = Some NUL \/ res !! j = Some SP)
     /\ (readN_pure 1 [] false [SP; CR]).1.1 = Done ([SP], 1)
     /\ (readN_pure 1 [] false [x61; DEL; CR]).1.1 = Done ([SP], 0)
     /\ (readN_pure 1 [] false [NUL; CR]).1.1 = Done ([NUL], 1)
     /\ (readN_pure 1 [] false [CR]).1.1 = Done ([NUL], 0).
Proof.
  split; [reflexivity|].
  apply (readN_buffer 4 letters false (bytes_of "ab" ++ [DEL; CR])).
  reflexivity.
Defined.

(** ** Running the reader inside a session *)

Lemma readN_run (l : N) (onlyIn : bytes) (wr : bool) (w : World) :
  l < uint_mod ->
  exists buf n rest evs,
    readN_pure l onlyIn wr (stream w) = (Done (buf, n), rest, evs)
    /\ readN l onlyIn wr w = (Done (buf, n), mkWorld rest (rng w), evs)
    /\ length buf = N.to_nat l
    /\ n <= l
    /\ Forall short_write evs
    /\ (wr = false -> Forall (fun e => e = EvWrite [LF; CR]) evs).
Proof.
  intros Hl.
  destruct (readN_pure_inv l onlyIn wr (stream w) Hl)
    as (buf & n & rest & evs & E & H1 & H2 & _ & _ & _ & H6).
  exists buf, n, rest, evs. unfold readN. rewrite E.
  repeat split; auto.
  pose proof (readN_loop_short_writes l onlyIn wr (stream w)
                (replicate (N.to_nat l) NUL) 0) as Hs.
  unfold readN_pure in E. now rewrite E in Hs.
Qed.

(** [readPassword] always returns; it writes at most the line break, and
    a rejection carries one of its two reasons. *)
Lemma readPassword_run (w : World) :
  PasswordMax options < uint_mod ->
  exists ok p w' evs,
    readPassword w = (Done (ok, p), w', evs)
    /\ Forall (fun e => e = EvWrite [LF; CR]) evs
    /\ (ok = false -> p = TOO_SHORT \/ p = NOT_COMPLIANT).
Proof.
  intros Hl.
  destruct (readN_run (PasswordMax options) letters false w Hl)
    as (buf & n & rest & evs & _ & E & _ & _ & _ & H6).
  unfold readPassword, bnd. rewrite E.
  destruct (n <? PasswordMin options).
  - exists false, TOO_SHORT. eexists; eexists. simpl.
    rewrite app_nil_r. repeat split; auto.
  - destruct (passwordRegexp_Match env buf); simpl.
    + exists true, buf. eexists; eexists.
      rewrite app_nil_r. repeat split; auto. discriminate.
    + exists false, NOT_COMPLIANT. eexists; eexists.
      rewrite app_nil_r. repeat split; auto.
Qed.

(** One turn of the first password loop. *)
Lemma passwordFirst_step (fuel : nat) (i : Z) (w w1 : World)
    (ok : bool) (p : bytes) (evs : list Event) :
  readPassword w = (Done (ok, p), w1, evs) ->
  passwordFirst (S fuel) i w =
    if ok then (Done (p, int_dec i), w1, EvWrite PASSWORD_PROMPT :: evs)
    else if (int_dec i <=? 0)%Z then
      (Returned, w1,
       EvWrite PASSWORD_PROMPT :: evs
       ++ [EvWrite (p ++ [LF]); EvWrite PASSWORD_FAILED])
    else
      let '(r, w2, evs2) := passwordFirst fuel (int_dec i) w1 in
      (r, w2, EvWrite PASSWORD_PROMPT :: evs ++ EvWrite (p ++ [LF]) :: evs2).
Proof.
  intros E. cbn [passwordFirst]. unfold bnd at 1. unfold write at 1, emit.
  unfold bnd at 1. rewrite E.
  destruct ok; cbn [negb].
  - unfold ret. cbn. now rewrite app_nil_r.
  - unfold bnd at 1. unfold write at 1, emit.
    destruct (int_dec i <=? 0)%Z.
    + unfold bnd, write, emit, do_return. cbn. reflexivity.
    + destruct (passwordFirst fuel (int_dec i) w1) as [[r w2] evs2].
      cbn. reflexivity.
Qed.

(** One turn of the confirmation loop. *)
Lemma passwordSecond_step (fuel : nat) (i : Z) (passwd : bytes)
    (w w1 : World) (ok : bool) (p : bytes) (evs : list Event) :
  readPassword w = (Done (ok, p), w1, evs) ->
  passwordSecond (S fuel) i passwd w =
    if ok && bytes_eqb p passwd then
      (Done tt, w1, EvWrite REPEAT_PROMPT :: evs)
    else
      let reason := if ok then NO_MATCH else p in
      if (int_dec i <=? 0)%Z then
        (Returned, w1,
         EvWrite REPEAT_PROMPT :: evs
         ++ [EvWrite (reason ++ [LF]); EvWrite PASSWORD_FAILED])
      else
        let '(r, w2, evs2) := passwordSecond fuel (int_dec i) passwd w1 in
        (r, w2,
         EvWrite REPEAT_PROMPT :: evs ++ EvWrite (reason ++ [LF]) :: evs2).
Proof.
  intros E. cbn [passwordSecond]. unfold bnd at 1. unfold write at 1, emit.
  unfold bnd at 1. rewrite E.
  destruct ok; cbn [negb andb].
  - destruct (bytes_eqb p passwd); cbn [negb].
    + unfold ret. cbn. now rewrite app_nil_r.
    + unfold bnd at 1. unfold write at 1, emit.
      destruct (int_dec i <=? 0)%Z.
      * unfold bnd, write, emit, do_return. cbn. reflexivity.
      * destruct (passwordSecond fuel (int_dec i) passwd w1) as [[r w2] evs2].
        cbn. reflexivity.
  - unfold bnd at 1. unfold write at 1, emit.
    destruct (int_dec i <=? 0)%Z.
    + unfold bnd, write, emit, do_return. cbn. reflexivity.
    + destruct (passwordSecond fuel (int_dec i) passwd w1) as [[r w2] evs2].
      cbn. reflexivity.
Qed.

(** The two loops in sequence. *)
Lemma collectPassword_eq (w : World) :
  collectPassword w =
    match passwordFirst 3 3 w with
    | (Done (passwd, i), w1, evs1) =>
        let '(r, w2, evs2) := passwordSecond 3 i passwd w1 in
        (match r with
         | Done _ => Done passwd
         | Returned => Returned
         | Fatal => Fatal
         | Panicked => Panicked
         | NoFuel => NoFuel
         end, w2, evs1 ++ evs2)
    | (Returned, w1, evs1) => (Returned, w1, evs1)
    | (Fatal, w1, evs1) => (Fatal, w1, evs1)
    | (Panicked, w1, evs1) => (Panicked, w1, evs1)
    | (NoFuel, w1, evs1) => (NoFuel, w1, evs1)
    end.
Proof.
  unfold collectPassword, bnd at 1.
  destruct (passwordFirst 3 3 w) as [[[[passwd i]| | | |] w1] evs1];
    try reflexivity.
  unfold bnd.
  destruct (passwordSecond 3 i passwd w1) as [[[[]| | | |] w2] evs2];
    try reflexivity.
  unfold ret. cbn. now rewrite app_nil_r.
Qed.


(** ** Events of composed blocks *)

Lemma bnd_events_Forall {A B} (P : Event -> Prop) (m : M A) (k : A -> M B)
    (w : World) :
  Forall P (events (m w)) ->
  (forall a w', Forall P (events (k a w'))) ->
  Forall P (events (bnd m k w)).
Proof.
  intros Hm Hk. unfold bnd, events in *.
  destruct (m w) as [[[a| | | |] w'] evs]; simpl in *; auto.
  specialize (Hk a w').
  destruct (k a w') as [[r w''] evs']. simpl in *.
  apply Forall_app. auto.
Qed.

Lemma short_write_quiet (e : Event) : short_write e -> quiet e.
Proof.
  intros (p & -> & Hp). simpl. split; intros ->; simpl in Hp; lia.
Qed.

Lemma readN_quiet (l : N) (onlyIn : bytes) (wr : bool) (w : World) :
  Forall quiet (events (readN l onlyIn wr w)).
Proof.
  unfold readN, readN_pure, events.
  pose proof (readN_loop_short_writes l onlyIn wr (stream w)
                (replicate (N.to_nat l) NUL) 0) as H.
  destruct (readN_loop l onlyIn wr (replicate (N.to_nat l) NUL) 0 (stream w))
    as [[r rest] evs]. simpl in *.
  eapply Forall_impl; [exact H | apply short_write_quiet].
Qed.

Lemma write_quiet (p : bytes) (w : World) :
  p <> PASSWORD_PROMPT -> p <> REPEAT_PROMPT ->
  Forall quiet (events (write p w)).
Proof. intros H1 H2. repeat constructor; assumption. Qed.

Lemma randomString_loop_quiet (n : nat) (w : World) :
  Forall quiet (events (randomString_loop n w)).
Proof.
  revert w. induction n as [|n IH]; intros w; [constructor|].
  cbn [randomString_loop].
  apply bnd_events_Forall.
  { unfold rand_Intn. destruct (rng w); constructor. }
  intros k w1. apply bnd_events_Forall.
  { unfold index. destruct (letters !! N.to_nat k); constructor. }
  intros c w2. apply bnd_events_Forall; [apply IH|].
  intros b w3. constructor.
Qed.

Ltac not_prompt :=
  let H := fresh in
  intros H; vm_compute in H; discriminate H.

Lemma consent_quiet (mail : bytes) (w : World) :
  Forall quiet (events (consent mail w)).
Proof.
  unfold consent.
  apply bnd_events_Forall.
  { apply write_quiet; intros H; discriminate H. }
  intros _ w1. apply bnd_events_Forall; [apply readN_quiet|].
  intros [buf read] w2.
  assert (Hbye : forall w', Forall quiet (events ((write BYE ;;; @do_return unit) w'))).
  { intros w'. apply bnd_events_Forall; [apply write_quiet; not_prompt|].
    intros; constructor. }
  destruct (read <? 1); [apply Hbye|].
  apply bnd_events_Forall.
  { unfold index. destruct (buf !! 0%nat); constructor. }
  intros b w3. destruct (negb (byte_eqb b "y")); [apply Hbye | constructor].
Qed.

Lemma issue_quiet (mail : bytes) (w : World) :
  Forall quiet (events (issue mail w)).
Proof.
  unfold issue.
  apply bnd_events_Forall; [apply randomString_loop_quiet|].
  intros token w1. apply bnd_events_Forall.
  { unfold sendmail. apply bnd_events_Forall; [repeat constructor|].
    intros; constructor. }
  intros ok w2. destruct (negb ok).
  - apply bnd_events_Forall; [repeat constructor|].
    intros _ w3. apply bnd_events_Forall; [apply write_quiet; not_prompt|].
    intros; constructor.
  - apply bnd_events_Forall; [repeat constructor|].
    intros; constructor.
Qed.

Lemma tokenLoop_quiet (fuel : nat) (i : Z) (token : bytes) (w : World) :
  Forall quiet (events (tokenLoop fuel i token w)).
Proof.
  revert i w. induction fuel as [|fuel IH]; intros i w; [constructor|].
  cbn [tokenLoop].
  apply bnd_events_Forall; [apply write_quiet; not_prompt|].
  intros _ w1. apply bnd_events_Forall; [apply readN_quiet|].
  intros [buf read] w2.
  destruct (negb (read =? TokenLength options) || negb (bytes_eqb buf token));
    [|constructor].
  destruct (int_dec i =? 0)%Z.
  - apply bnd_events_Forall; [apply write_quiet; not_prompt|].
    intros; constructor.
  - apply bnd_events_Forall; [|intros; apply IH].
    apply write_quiet; intros H; discriminate H.
Qed.

Lemma prelude_quiet (mail : bytes) (w : World) :
  Forall quiet (events (prelude mail w)).
Proof.
  unfold prelude.
  apply bnd_events_Forall; [apply consent_quiet|].
  intros _ w1. apply bnd_events_Forall; [apply issue_quiet|].
  intros token w2. apply tokenLoop_quiet.
Qed.

(** ** The directory part of the handler *)

Lemma register_eq (uid email password : bytes) (w : World) :
  register uid email password w =
    if ldap_add_ok env (user_dn uid) then
      (Done (ldap_passwd_ok env (user_dn uid) password), w,
       [EvLdapAdd (user_dn uid) (bytes_of "email") [email];
        EvLdapPasswordModify (user_dn uid) password])
    else
      (Done false, w, [EvLdapAdd (user_dn uid) (bytes_of "email") [email]]).
Proof.
  unfold register, user_dn, bnd, emit, ret.
  destruct (ldap_add_ok env _); cbn; [|reflexivity].
  destruct (ldap_passwd_ok env _ _); reflexivity.
Qed.

Lemma registration_eq (user mail passwd : bytes) (w : World) :
  registration user mail passwd w =
    let '(ok, _, evs) := register user mail passwd w in
    match ok with
    | Done true =>
        (Done tt, w,
         EvWrite REGISTERING :: evs ++ [EvWrite (ALREADY_REGISTERED login_url)])
    | _ =>
        (Fatal, w,
         EvWrite REGISTERING :: evs
         ++ [EvLog (bytes_of "Error while registering a new user with LDAP")])
    end.
Proof.
  unfold registration, bnd at 1. unfold write at 1, emit. unfold bnd at 1.
  rewrite register_eq.
  destruct (ldap_add_ok env _); cbn.
  - destruct (ldap_passwd_ok env _ _); reflexivity.
  - reflexivity.
Qed.

Lemma directory_eq (user mail : bytes) (w : World) :
  directory user mail w =
    match ldap_search env (LdapUserScope options) (exists_filter user) with
    | None =>
        (Fatal, w,
         [EvLdapSearch (LdapUserScope options) (exists_filter user);
          EvLog (bytes_of "Error while searching LDAP user")])
    | Some n =>
        if (0 <? n)%nat then
          (Returned, w,
           [EvLdapSearch (LdapUserScope options) (exists_filter user);
            EvWrite (ALREADY_REGISTERED login_url)])
        else
          let '(r, w', evs) :=
            (passwd <- collectPassword ;; registration user mail passwd) w in
          (r, w',
           EvLdapSearch (LdapUserScope options) (exists_filter user)
           :: EvWrite NOT_REGISTERED
           :: EvWrite (PASWORD_RULES (PasswordMin options) (PasswordMax options))
           :: evs)
    end.
Proof.
  unfold directory, bnd at 1. unfold exists_, bnd at 1. unfold emit.
  destruct (ldap_search env _ _) as [n|]; [|reflexivity].
  destruct (0 <? n)%nat; [reflexivity|].
  cbn.
  destruct ((passwd <- collectPassword;; registration user mail passwd) w)
    as [[r w'] evs].
  reflexivity.
Qed.

Lemma handler_eq (user : bytes) (w : World) :
  handler user w =
    match prelude (user ++ ToSuffix options) w with
    | (Done _, w1, pre) =>
        if ldap_bind_ok env then
          let '(r, w2, evs) := directory user (user ++ ToSuffix options) w1 in
          (r, w2, pre ++ EvLdapBind :: evs ++ closes r)
        else
          (Fatal, w1, pre ++ [EvLdapBind; EvLog (bytes_of "Could not bind to LDAP")])
    | (Returned, w1, pre) => (Returned, w1, pre ++ [EvClose])
    | (Fatal, w1, pre) => (Fatal, w1, pre)
    | (Panicked, w1, pre) => (Panicked, w1, pre ++ [EvClose])
    | (NoFuel, w1, pre) => (NoFuel, w1, pre)
    end.
Proof.
  unfold handler, session, with_defer at 1, bnd at 1.
  destruct (prelude (user ++ ToSuffix options) w) as [[[[]| | | |] w1] pre];
    try reflexivity.
  unfold bnd at 1, bind, bnd at 1, emit, ret. cbn.
  destruct (ldap_bind_ok env); cbn; [|reflexivity].
  unfold with_defer.
  destruct (directory user (user ++ ToSuffix options) w1) as [[r w2] evs].
  destruct r; cbn; repeat (rewrite <- app_assoc; cbn);
    rewrite ?app_nil_r; reflexivity.
Qed.

(** ** The password collection only writes *)

Lemma readPassword_writes (w : World) :
  Forall (fun e => is_write e = true) (events (readPassword w)).
Proof.
  unfold readPassword. apply bnd_events_Forall.
  - unfold readN, readN_pure, events.
    pose proof (readN_loop_short_writes (PasswordMax options) letters false
                  (stream w) (replicate (N.to_nat (PasswordMax options)) NUL) 0)
      as H.
    destruct (readN_loop _ _ _ _ _ _) as [[r rest] evs]. simpl in *.
    eapply Forall_impl; [exact H|]. now intros e (p & -> & _).
  - intros [passwd read] w'.
    destruct (read <? PasswordMin options); [constructor|].
    destruct (negb (passwordRegexp_Match env passwd)); constructor.
Qed.

Lemma passwordFirst_writes (fuel : nat) (i : Z) (w : World) :
  Forall (fun e => is_write e = true) (events (passwordFirst fuel i w)).
Proof.
  revert i w. induction fuel as [|fuel IH]; intros i w; [constructor|].
  cbn [passwordFirst].
  apply bnd_events_Forall; [repeat constructor|].
  intros _ w1. apply bnd_events_Forall; [apply readPassword_writes|].
  intros [ok p] w2. destruct (negb ok); [|constructor].
  apply bnd_events_Forall; [repeat constructor|].
  intros _ w3. destruct (int_dec i <=? 0)%Z; [|apply IH].
  apply bnd_events_Forall; [repeat constructor|]. intros; constructor.
Qed.

Lemma passwordSecond_writes (fuel : nat) (i : Z) (passwd : bytes) (w : World) :
  Forall (fun e => is_write e = true) (events (passwordSecond fuel i passwd w)).
Proof.
  revert i w. induction fuel as [|fuel IH]; intros i w; [constructor|].
  cbn [passwordSecond].
  apply bnd_events_Forall; [repeat constructor|].
  intros _ w1. apply bnd_events_Forall; [apply readPassword_writes|].
  intros [ok p] w2.
  destruct (if ok && negb (bytes_eqb p passwd) then (false, NO_MATCH) else (ok, p))
    as [ok' p'].
  destruct (negb ok'); [|constructor].
  apply bnd_events_Forall; [repeat constructor|].
  intros _ w3. destruct (int_dec i <=? 0)%Z; [|apply IH].
  apply bnd_events_Forall; [repeat constructor|]. intros; constructor.
Qed.

Lemma collectPassword_writes (w : World) :
  Forall (fun e => is_write e = true) (events (collectPassword w)).
Proof.
  unfold collectPassword.
  apply bnd_events_Forall; [apply passwordFirst_writes|].
  intros [passwd i] w1.
  apply bnd_events_Forall; [apply passwordSecond_writes|].
  intros; constructor.
Qed.

(** The collection followed by the registration. *)
Lemma collect_then_register (user mail : bytes) (w : World) :
  (passwd <- collectPassword ;; registration user mail passwd) w =
    match collectPassword w with
    | (Done passwd, w1, evs) =>
        let '(r, w2, evs2) := registration user mail passwd w1 in
        (r, w2, evs ++ evs2)
    | (Returned, w1, evs) => (Returned, w1, evs)
    | (Fatal, w1, evs) => (Fatal, w1, evs)
    | (Panicked, w1, evs) => (Panicked, w1, evs)
    | (NoFuel, w1, evs) => (NoFuel, w1, evs)
    end.
Proof. reflexivity. Qed.

Lemma filter_none {A} (f : A -> bool) (P : A -> Prop) (l : list A) :
  (forall a, P a -> f a = false) -> Forall P l -> List.filter f l = [].
Proof.
  intros Hf H. induction H as [|a l Ha _ IH]; [reflexivity|].
  simpl. now rewrite (Hf a Ha).
Qed.

Lemma quiet_not_mutation (e : Event) : quiet e -> is_mutation e = false.
Proof. destruct e; simpl; tauto. Qed.

Lemma write_not_mutation (e : Event) : is_write e = true -> is_mutation e = false.
Proof. destruct e; simpl; congruence. Qed.

Lemma add_is_mutation (e : Event) : is_add e = true -> is_mutation e = true.
Proof. destruct e; simpl; congruence. Qed.

(** A prefix without mutations lies before the first mutation. *)
Lemma before_first_mutation (P Q l1 l2 : list Event) (e : Event) :
  Forall (fun e => is_mutation e = false) P ->
  P ++ Q = l1 ++ e :: l2 -> is_mutation e = true ->
  exists k, l1 = P ++ k.
Proof.
  intros HP. revert l1. induction HP as [|a P Ha _ IH]; intros l1 E He.
  - now exists l1.
  - destruct l1 as [|b l1]; simpl in E; injection E as -> E.
    + congruence.
    + destruct (IH l1 E He) as [k ->]. now exists k.
Qed.

(** ** Order and number of the directory operations *)

Ltac no_mutation :=
  repeat first
    [ assumption
    | apply Forall_nil_2
    | apply Forall_cons_2; [reflexivity|]
    | apply Forall_app_2
    | match goal with
      | H : Forall quiet ?l |- Forall _ ?l =>
          exact (Forall_impl _ _ _ H quiet_not_mutation)
      | H : Forall (fun e => is_write e = true) ?l |- Forall _ ?l =>
          exact (Forall_impl _ _ _ H write_not_mutation)
      end ].

(** The trace of a session splits into a part without mutations and a
    rest; when the rest is not empty the first part holds the existence
    query, and the rest adds one entry at most. *)
Lemma handler_guard (user : bytes) (w : World) :
  exists P Q,
    events (handler user w) = P ++ Q
    /\ Forall (fun e => is_mutation e = false) P
    /\ (Q = [] \/ EvLdapSearch (LdapUserScope options) (exists_filter user) ∈ P)
    /\ (length (List.filter is_add Q) <= 1)%nat.
Proof.
  rewrite handler_eq.
  pose proof (prelude_quiet (user ++ ToSuffix options) w) as Hq.
  destruct (prelude (user ++ ToSuffix options) w) as [[r w1] pre].
  unfold events in Hq. simpl in Hq.
  assert (Hstop : forall (x : Res unit) (w' : World) (tl : list Event),
            Forall (fun e => is_mutation e = false) tl ->
            exists P Q, events (x, w', pre ++ tl) = P ++ Q
              /\ Forall (fun e => is_mutation e = false) P
              /\ (Q = [] \/ EvLdapSearch (LdapUserScope options)
                              (exists_filter user) ∈ P)
              /\ (length (List.filter is_add Q) <= 1)%nat).
  { intros x w' tl Htl. exists (pre ++ tl), []. unfold events. simpl.
    rewrite app_nil_r.
    split; [reflexivity|]. split; [no_mutation|]. split; [now left | lia]. }
  destruct r as [[]| | | |];
    try (apply Hstop; no_mutation);
    try (rewrite <- (app_nil_r pre); apply Hstop; no_mutation).
  destruct (ldap_bind_ok env); [|apply Hstop; no_mutation].
  rewrite directory_eq.
  destruct (ldap_search env _ _) as [n|].
  2: { apply Hstop. no_mutation. }
  destruct (0 <? n)%nat.
  { apply Hstop. no_mutation. }
  rewrite collect_then_register.
  pose proof (collectPassword_writes w1) as Hc.
  destruct (collectPassword w1) as [[rc w2] evs_c].
  unfold events in Hc. simpl in Hc.
  destruct rc as [passwd| | | |];
    try (apply Hstop; no_mutation).
  rewrite registration_eq, register_eq.
  set (search := EvLdapSearch (LdapUserScope options) (exists_filter user)).
  exists (pre ++ EvLdapBind :: search :: EvWrite NOT_REGISTERED
          :: EvWrite (PASWORD_RULES (PasswordMin options) (PasswordMax options))
          :: evs_c ++ [EvWrite REGISTERING]).
  assert (Hin : search ∈ pre ++ EvLdapBind :: search :: EvWrite NOT_REGISTERED
          :: EvWrite (PASWORD_RULES (PasswordMin options) (PasswordMax options))
          :: evs_c ++ [EvWrite REGISTERING]).
  { apply elem_of_app. right. apply elem_of_cons. right.
    apply elem_of_cons. now left. }
  destruct (ldap_add_ok env _).
  - destruct (ldap_passwd_ok env _ _); eexists; unfold events; simpl;
      (split; [repeat (rewrite <- app_assoc; simpl); reflexivity|]);
      (split; [no_mutation|]); (split; [right; exact Hin|]);
      simpl; lia.
  - eexists; unfold events; simpl;
      (split; [repeat (rewrite <- app_assoc; simpl); reflexivity|]);
      (split; [no_mutation|]); (split; [right; exact Hin|]);
      simpl; lia.
Qed.

Lemma quiet_writes (pre : list Event) (p : bytes) :
  Forall quiet pre -> p ∈ writes pre ->
  p <> PASSWORD_PROMPT /\ p <> REPEAT_PROMPT.
Proof.
  intros Hq Hp. unfold writes in Hp.
  apply list_elem_of_omap in Hp as (e & He & Hw).
  rewrite Forall_forall in Hq. specialize (Hq e He).
  destruct e; simpl in Hw; try discriminate Hw.
  injection Hw as ->. exact Hq.
Qed.

Lemma quiet_not_search (pre : list Event) (base filter : bytes) :
  Forall quiet pre -> EvLdapSearch base filter ∉ pre.
Proof.
  intros Hq Hin. rewrite Forall_forall in Hq. exact (Hq _ Hin).
Qed.

Lemma writes_app (l1 l2 : list Event) : writes (l1 ++ l2) = writes l1 ++ writes l2.
Proof. apply omap_app. Qed.

(** C5: For every session in which [exists] is called and returns true
    (the search finds at least one entry), the handler returns, the last
    thing written is the already-registered message, no password prompt
    is written, and neither the add nor the password-set operation is
    performed. *)
Theorem already_registered_stops (user : bytes) (w : World) (n : nat) :
  EvLdapSearch (LdapUserScope options) (exists_filter user)
    ∈ events (handler user w) ->
  ldap_search env (LdapUserScope options) (exists_filter user) = Some n ->
  (0 < n)%nat ->
  result (handler user w) = Returned
  /\ last (writes (events (handler user w)))
     = Some (ALREADY_REGISTERED login_url)
  /\ (PASSWORD_PROMPT ∉ writes (events (handler user w)))
  /\ (REPEAT_PROMPT ∉ writes (events (handler user w)))
  /\ Forall (fun e => is_mutation e = false) (events (handler user w))
  /\ exists pre,
       Forall quiet pre
       /\ events (handler user w)
          = pre ++ [EvLdapBind;
                    EvLdapSearch (LdapUserScope options) (exists_filter user);
                    EvWrite (ALREADY_REGISTERED login_url);
                    EvLdapClose; EvClose].
Proof.
  intros Hin Hsearch Hn.
  rewrite handler_eq in *.
  pose proof (prelude_quiet (user ++ ToSuffix options) w) as Hq.
  destruct (prelude (user ++ ToSuffix options) w) as [[r w1] pre].
  unfold events in Hq. simpl in Hq.
  assert (Hno : forall tl, Forall quiet tl ->
            EvLdapSearch (LdapUserScope options) (exists_filter user)
              ∈ pre ++ tl -> False).
  { intros tl Htl H. apply elem_of_app in H as [H|H].
    - exact (quiet_not_search _ _ _ Hq H).
    - exact (quiet_not_search _ _ _ Htl H). }
  assert (Hclose : EvLdapSearch (LdapUserScope options) (exists_filter user)
              ∈ pre ++ [EvClose] -> False).
  { intros H. apply elem_of_app in H as [H|H].
    - exact (quiet_not_search _ _ _ Hq H).
    - apply list_elem_of_singleton in H. discriminate H. }
  destruct r as [[]| | | |]; unfold events in Hin; simpl in Hin;
    try (exfalso; exact (Hclose Hin));
    try (exfalso; rewrite <- (app_nil_r pre) in Hin;
         exact (Hno [] ltac:(constructor) Hin)).
  destruct (ldap_bind_ok env).
  2: { exfalso. simpl in Hin. apply elem_of_app in Hin as [H|H].
       - exact (quiet_not_search _ _ _ Hq H).
       - repeat (apply elem_of_cons in H as [H|H]; [discriminate H|]).
         now apply elem_of_nil in H. }
  clear Hin. rewrite directory_eq, Hsearch.
  apply Nat.ltb_lt in Hn. rewrite Hn.
  unfold result, events. simpl.
  split; [reflexivity|].
  split.
  { rewrite writes_app. simpl.
    apply last_snoc. }
  assert (Hw : forall p, p <> ALREADY_REGISTERED login_url ->
            p ∈ writes pre ++ [ALREADY_REGISTERED login_url] ->
            p ∈ writes pre).
  { intros p Hp H. apply elem_of_app in H as [H|H]; [exact H|].
    apply list_elem_of_singleton in H. contradiction. }
  split.
  { rewrite writes_app. simpl. intros H.
    apply Hw in H; [|intros E; discriminate E].
    now destruct (quiet_writes _ _ Hq H). }
  split.
  { rewrite writes_app. simpl. intros H.
    apply Hw in H; [|intros E; discriminate E].
    now destruct (quiet_writes _ _ Hq H). }
  split; [no_mutation|].
  exists pre. split; [exact Hq | reflexivity].
Qed.

(** X20: In every session the existence query comes before any directory
    mutation, and at most one entry is added.  When the session reaches
    the directory, [exists] returns false and the password collection
    yields a string, the mutations of the session are exactly those of
    one call of [register] on the identity, the identity followed by the
    mail suffix, and that string: one add of the entry of that identity
    with that mail address, and the password-set, if any, with that
    string.  The string is the one [readPassword] returned, the whole
    read buffer, not the password as typed. *)
Theorem register_once (user : bytes) (w : World) :
  (length (List.filter is_add (events (handler user w))) <= 1)%nat
  /\ (forall l1 e l2,
        events (handler user w) = l1 ++ e :: l2 -> is_mutation e = true ->
        EvLdapSearch (LdapUserScope options) (exists_filter user) ∈ l1)
  /\ (forall w1 pre w2 evs_c passwd,
        prelude (user ++ ToSuffix options) w = (Done tt, w1, pre) ->
        ldap_bind_ok env = true ->
        ldap_search env (LdapUserScope options) (exists_filter user)
          = Some 0%nat ->
        collectPassword w1 = (Done passwd, w2, evs_c) ->
        List.filter is_mutation (events (handler user w))
          = events (register user (user ++ ToSuffix options) passwd w2)
        /\ List.filter is_add (events (handler user w))
           = [EvLdapAdd (user_dn user) (bytes_of "email")
                [user ++ ToSuffix options]]
        /\ (forall dn pw,
              EvLdapPasswordModify dn pw ∈ events (handler user w) ->
              dn = user_dn user /\ pw = passwd)).
Proof.
  split; [|split].
  - destruct (handler_guard user w) as (P & Q & -> & HP & _ & HQ).
    rewrite List.filter_app, length_app.
    assert (List.filter is_add P = []) as ->.
    { apply (filter_none is_add (fun e => is_mutation e = false)); [|exact HP].
      intros e He. destruct (is_add e) eqn:Ha; [|reflexivity].
      apply add_is_mutation in Ha. congruence. }
    exact HQ.
  - intros l1 e l2 E He.
    destruct (handler_guard user w) as (P & Q & EP & HP & HQ & _).
    rewrite EP in E.
    destruct (before_first_mutation P Q l1 l2 e HP E He) as [k ->].
    destruct HQ as [-> | Hin].
    + exfalso. rewrite app_nil_r in E.
      rewrite Forall_forall in HP.
      assert (e ∈ P) as Hin.
      { rewrite E. apply elem_of_app. right. apply elem_of_cons. now left. }
      specialize (HP e Hin). congruence.
    + apply elem_of_app. now left.
  - intros w1 pre w2 evs_c passwd Epre Hbind Hsearch Ecol.
    pose proof (prelude_quiet (user ++ ToSuffix options) w) as Hq.
    pose proof (collectPassword_writes w1) as Hc.
    rewrite Epre in Hq. rewrite Ecol in Hc.
    unfold events in Hq, Hc. simpl in Hq, Hc.
    rewrite handler_eq, Epre, Hbind, directory_eq, Hsearch.
    cbn [Nat.ltb Nat.leb].
    rewrite collect_then_register, Ecol, registration_eq.
    rewrite !register_eq.
    assert (Hpre : forall f, (forall e, is_mutation e = false -> f e = false) ->
              List.filter f pre = [] /\ List.filter f evs_c = []).
    { intros f Hf. split.
      - apply (filter_none f quiet); [|exact Hq].
        intros e He. now apply Hf, quiet_not_mutation.
      - apply (filter_none f (fun e => is_write e = true)); [|exact Hc].
        intros e He. now apply Hf, write_not_mutation. }
    destruct (Hpre is_mutation (fun e H => H)) as [Hm1 Hm2].
    destruct (Hpre is_add) as [Ha1 Ha2].
    { intros e He. destruct (is_add e) eqn:Ha; [|reflexivity].
      apply add_is_mutation in Ha. congruence. }
    assert (Hpw : forall dn pw tl,
              (forall e, e ∈ tl -> e = EvLdapPasswordModify dn pw ->
                 dn = user_dn user /\ pw = passwd) ->
              EvLdapPasswordModify dn pw
                ∈ pre ++ EvLdapBind
                  :: EvLdapSearch (LdapUserScope options) (exists_filter user)
                  :: EvWrite NOT_REGISTERED
                  :: EvWrite (PASWORD_RULES (PasswordMin options)
                                (PasswordMax options))
                  :: evs_c ++ tl ->
              dn = user_dn user /\ pw = passwd).
    { intros dn pw tl Htl H.
      apply elem_of_app in H as [H|H].
      { rewrite Forall_forall in Hq. now specialize (Hq _ H). }
      repeat (apply elem_of_cons in H as [H|H]; [discriminate H|]).
      apply elem_of_app in H as [H|H].
      { rewrite Forall_forall in Hc. specialize (Hc _ H). discriminate Hc. }
      exact (Htl _ H eq_refl). }
    destruct (ldap_add_ok env (user_dn user)).
    + destruct (ldap_passwd_ok env (user_dn user) passwd);
        unfold events; cbn [snd fst];
        repeat (rewrite ?List.filter_app; cbn [List.filter is_mutation is_add]);
        rewrite ?Hm1, ?Hm2, ?Ha1, ?Ha2; cbn [app];
        (split; [reflexivity|]); (split; [reflexivity|]);
        intros dn pw H;
        repeat (rewrite <- app_assoc in H; cbn [app] in H);
        (eapply Hpw; [|exact H]);
        intros e He Ee; subst e; unfold closes in He;
        repeat (apply elem_of_cons in He as [He|He];
                [try discriminate He; injection He as -> ->; now split|]);
        now apply elem_of_nil in He.
    + unfold events; cbn [snd fst];
        repeat (rewrite ?List.filter_app; cbn [List.filter is_mutation is_add]);
        rewrite ?Hm1, ?Hm2, ?Ha1, ?Ha2; cbn [app];
        (split; [reflexivity|]); (split; [reflexivity|]);
        intros dn pw H;
        repeat (rewrite <- app_assoc in H; cbn [app] in H);
        (eapply Hpw; [|exact H]);
        intros e He Ee; subst e; unfold closes in He;
        repeat (apply elem_of_cons in He as [He|He];
                [try discriminate He; injection He as -> ->; now split|]);
        now apply elem_of_nil in He.
Qed.

(** ** The token loop *)

(** One turn of the token loop. *)
Lemma tokenLoop_step (fuel : nat) (i : Z) (token : bytes) (w w1 : World)
    (buf : bytes) (read : N) (evs : list Event) :
  readN (TokenLength options) [] true w = (Done (buf, read), w1, evs) ->
  tokenLoop (S fuel) i token w =
    if token_ok token buf read then (Done tt, w1, EvWrite TOKEN_BODY :: evs)
    else if (int_dec i =? 0)%Z then
      (Returned, w1, EvWrite TOKEN_BODY :: evs ++ [EvWrite TOKEN_FAILED])
    else
      let '(r, w2, evs2) := tokenLoop fuel (int_dec i) token w1 in
      (r, w2,
       EvWrite TOKEN_BODY :: evs ++ EvWrite (TOKEN_RETRY (int_dec i)) :: evs2).
Proof.
  intros E. cbn [tokenLoop]. unfold bnd at 1. unfold write at 1, emit.
  unfold bnd at 1. rewrite E. unfold token_ok.
  rewrite <- negb_andb.
  destruct ((read =? TokenLength options) && bytes_eqb buf token); cbn [negb].
  - unfold ret. cbn. now rewrite app_nil_r.
  - destruct (int_dec i =? 0)%Z.
    + unfold bnd, write, emit, do_return. cbn. reflexivity.
    + unfold bnd at 1. unfold write at 1, emit.
      destruct (tokenLoop fuel (int_dec i) token w1) as [[r w2] evs2].
      cbn. reflexivity.
Qed.

Lemma token_ok_spec (token buf : bytes) (read : N) :
  token_ok token buf read = true <-> read = TokenLength options /\ buf = token.
Proof.
  unfold token_ok. rewrite andb_true_iff, N.eqb_eq, bytes_eqb_eq. tauto.
Qed.

(** C4: Token verification allows exactly three failed comparisons.
    Each attempt writes the prompt, reads with the token length as
    maximum and succeeds exactly when the count is the token length and
    the buffer equals the token byte for byte; a failed attempt (mismatch
    or short read) takes one unit of the budget of three, and the retry
    message shows the two and then the one attempt left; the third
    failure writes the exhausted message and the handler returns; a match
    at the first, second or third attempt ends the loop and the flow goes
    on. *)
Theorem token_three_attempts (token : bytes) (w : World) :
  TokenLength options < uint_mod ->
  exists b1 n1 w1 e1 b2 n2 w2 e2 b3 n3 w3 e3,
    readN (TokenLength options) [] true w = (Done (b1, n1), w1, e1)
    /\ readN (TokenLength options) [] true w1 = (Done (b2, n2), w2, e2)
    /\ readN (TokenLength options) [] true w2 = (Done (b3, n3), w3, e3)
    /\ length b1 = N.to_nat (TokenLength options)
    /\ length b2 = N.to_nat (TokenLength options)
    /\ length b3 = N.to_nat (TokenLength options)
    /\ (forall b n, token_ok token b n = true
                    <-> n = TokenLength options /\ b = token)
    /\ tokenLoop 3 3 token w =
         if token_ok token b1 n1 then
           (Done tt, w1, EvWrite TOKEN_BODY :: e1)
         else if token_ok token b2 n2 then
           (Done tt, w2,
            EvWrite TOKEN_BODY :: e1 ++ EvWrite (TOKEN_RETRY 2)
            :: EvWrite TOKEN_BODY :: e2)
         else if token_ok token b3 n3 then
           (Done tt, w3,
            EvWrite TOKEN_BODY :: e1 ++ EvWrite (TOKEN_RETRY 2)
            :: EvWrite TOKEN_BODY :: e2 ++ EvWrite (TOKEN_RETRY 1)
            :: EvWrite TOKEN_BODY :: e3)
         else
           (Returned, w3,
            EvWrite TOKEN_BODY :: e1 ++ EvWrite (TOKEN_RETRY 2)
            :: EvWrite TOKEN_BODY :: e2 ++ EvWrite (TOKEN_RETRY 1)
            :: EvWrite TOKEN_BODY :: e3 ++ [EvWrite TOKEN_FAILED]).
Proof.
  intros Hl.
  destruct (readN_run (TokenLength options) [] true w Hl)
    as (b1 & n1 & r1 & e1 & _ & E1 & L1 & _).
  destruct (readN_run (TokenLength options) [] true (mkWorld r1 (rng w)) Hl)
    as (b2 & n2 & r2 & e2 & _ & E2 & L2 & _).
  destruct (readN_run (TokenLength options) [] true
              (mkWorld r2 (rng (mkWorld r1 (rng w)))) Hl)
    as (b3 & n3 & r3 & e3 & _ & E3 & L3 & _).
  do 12 eexists.
  split; [exact E1|]. split; [exact E2|]. split; [exact E3|].
  split; [exact L1|]. split; [exact L2|]. split; [exact L3|].
  split; [apply token_ok_spec|].
  rewrite (tokenLoop_step 2 3 token _ _ _ _ _ E1).
  destruct (token_ok token b1 n1); [reflexivity|].
  change (int_dec 3) with 2%Z. cbn [Z.eqb].
  rewrite (tokenLoop_step 1 2 token _ _ _ _ _ E2).
  destruct (token_ok token b2 n2); [reflexivity|].
  change (int_dec 2) with 1%Z. cbn [Z.eqb].
  rewrite (tokenLoop_step 0 1 token _ _ _ _ _ E3).
  destruct (token_ok token b3 n3); [reflexivity|].
  change (int_dec 1) with 0%Z. cbn [Z.eqb].
  reflexivity.
Qed.

(** ** Counting attempts and failures in a trace *)

Lemma count_cons (f : Event -> bool) (e : Event) (l : list Event) :
  count f (e :: l) = ((if f e then 1 else 0) + count f l)%nat.
Proof. unfold count. simpl. now destruct (f e). Qed.

Lemma count_app (f : Event -> bool) (l1 l2 : list Event) :
  count f (l1 ++ l2) = (count f l1 + count f l2)%nat.
Proof. unfold count. now rewrite List.filter_app, length_app. Qed.

Lemma count_nil (f : Event -> bool) : count f [] = 0%nat.
Proof. reflexivity. Qed.

Lemma count_line_break (f : Event -> bool) (l : list Event) :
  f (EvWrite [LF; CR]) = false ->
  Forall (fun e => e = EvWrite [LF; CR]) l -> count f l = 0%nat.
Proof.
  intros Hf H. unfold count.
  rewrite (filter_none f _ l (fun e (He : e = EvWrite [LF; CR]) =>
             eq_ind_r (fun e => f e = false) Hf He) H).
  reflexivity.
Qed.

Lemma reason_counts (r : bytes) :
  is_reason r ->
  is_prompt (EvWrite (r ++ [LF])) = false
  /\ is_reject (EvWrite (r ++ [LF])) = true
  /\ is_exhausted (EvWrite (r ++ [LF])) = false.
Proof. intros [-> | [-> | ->]]; repeat split; reflexivity. Qed.

Ltac tally :=
  unfold attempts, failures, exhaustions;
  repeat first [rewrite count_app | rewrite count_cons | rewrite count_nil];
  repeat match goal with
    | H : Forall (fun e => e = EvWrite [LF; CR]) ?l |- context [count ?f ?l] =>
        rewrite (count_line_break f l eq_refl H)
    end;
  repeat match goal with
    | H : is_reason ?r |- _ =>
        let H1 := fresh in let H2 := fresh in let H3 := fresh in
        destruct (reason_counts r H) as (H1 & H2 & H3);
        rewrite ?H1, ?H2, ?H3; clear H H1 H2 H3
    end;
  cbn.

Ltac last_write :=
  cbn [app];
  repeat first [rewrite last_app_cons | rewrite last_cons_cons
               | rewrite app_comm_cons];
  try apply last_singleton.

Ltac budget_leaf :=
  cbn [result events fst snd];
  split; [first [left; eexists; reflexivity | right; reflexivity]|];
  split; [tally; split; [intros ?; first [discriminate | lia]
                        | intros ?; first [reflexivity | lia]]|];
  split; [intros; first [discriminate | split; [last_write | tally; lia]]|];
  split; [intros; first [discriminate | tally; lia]|];
  intros ? ? ? ? HF;
  first [discriminate HF | injection HF as <- <- <- <-; tally; reflexivity].

(** C2, as the code has it: the two password loops share one counter;
    it starts at three and goes down by one on every attempt, failed or
    successful.  The collection
    ends the session, with the password-failure message as its last
    write, exactly when an attempt fails after two earlier attempts at
    least, of which one at most has succeeded; this takes two or three
    failures and three or four attempts.  Otherwise it yields the
    password after two successful attempts and two failures at most. *)
Theorem password_budget_counts_attempts (w : World) :
  PasswordMax options < uint_mod ->
  ((exists passwd, result (collectPassword w) = Done passwd)
   \/ result (collectPassword w) = Returned)
  /\ (result (collectPassword w) = Returned
      <-> (3 <= attempts (events (collectPassword w))
           /\ attempts (events (collectPassword w))
              <= failures (events (collectPassword w)) + 1)%nat)
  /\ (result (collectPassword w) = Returned ->
        last (events (collectPassword w)) = Some (EvWrite PASSWORD_FAILED)
        /\ (exhaustions (events (collectPassword w)) = 1
            /\ 2 <= failures (events (collectPassword w)) <= 3
            /\ attempts (events (collectPassword w)) <= 4)%nat)
  /\ (forall passwd, result (collectPassword w) = Done passwd ->
        (exhaustions (events (collectPassword w)) = 0
         /\ attempts (events (collectPassword w))
            = failures (events (collectPassword w)) + 2
         /\ failures (events (collectPassword w)) <= 2)%nat)
  /\ (forall passwd i w' evs,
        passwordFirst 3 3 w = (Done (passwd, i), w', evs) ->
        i = (3 - Z.of_nat (attempts evs))%Z).
Proof.
  intros Hl.
  destruct (readPassword_run w Hl) as (ok1 & p1 & w1 & e1 & E1 & F1 & R1).
  destruct (readPassword_run w1 Hl) as (ok2 & p2 & w2 & e2 & E2 & F2 & R2).
  destruct (readPassword_run w2 Hl) as (ok3 & p3 & w3 & e3 & E3 & F3 & R3).
  destruct (readPassword_run w3 Hl) as (ok4 & p4 & w4 & e4 & E4 & F4 & R4).
  assert (Hr : forall ok p, (ok = false -> p = TOO_SHORT \/ p = NOT_COMPLIANT) ->
            ok = false -> is_reason p).
  { intros ok p H E. destruct (H E) as [->| ->]; [left | right; left];
      reflexivity. }
  assert (Hnm : is_reason NO_MATCH) by (right; right; reflexivity).
  rewrite collectPassword_eq.
  rewrite (passwordFirst_step 2 3 _ _ _ _ _ E1).
  change (int_dec 3) with 2%Z. cbn [Z.leb Z.compare].
  destruct ok1.
  - (* accepted at the first attempt: the counter is 2 *)
    rewrite (passwordSecond_step 2 2 p1 _ _ _ _ _ E2).
    change (int_dec 2) with 1%Z. cbn [Z.leb Z.compare].
    destruct (ok2 && bytes_eqb p2 p1) eqn:M2; [budget_leaf|].
    assert (is_reason (if ok2 then NO_MATCH else p2)) as Hr2
      by (destruct ok2; [exact Hnm | now apply (Hr false p2 R2)]).
    rewrite (passwordSecond_step 1 1 p1 _ _ _ _ _ E3).
    change (int_dec 1) with 0%Z. cbn [Z.leb Z.compare].
    destruct (ok3 && bytes_eqb p3 p1) eqn:M3; [budget_leaf|].
    assert (is_reason (if ok3 then NO_MATCH else p3)) as Hr3
      by (destruct ok3; [exact Hnm | now apply (Hr false p3 R3)]).
    budget_leaf.
  - pose proof (Hr false p1 R1 eq_refl) as Hr1.
    rewrite (passwordFirst_step 1 2 _ _ _ _ _ E2).
    change (int_dec 2) with 1%Z. cbn [Z.leb Z.compare].
    destruct ok2.
    + (* accepted at the second attempt: the counter is 1 *)
      rewrite (passwordSecond_step 2 1 p2 _ _ _ _ _ E3).
      change (int_dec 1) with 0%Z. cbn [Z.leb Z.compare].
      destruct (ok3 && bytes_eqb p3 p2) eqn:M3; [budget_leaf|].
      assert (is_reason (if ok3 then NO_MATCH else p3)) as Hr3
        by (destruct ok3; [exact Hnm | now apply (Hr false p3 R3)]).
      budget_leaf.
    + pose proof (Hr false p2 R2 eq_refl) as Hr2.
      rewrite (passwordFirst_step 0 1 _ _ _ _ _ E3).
      change (int_dec 1) with 0%Z. cbn [Z.leb Z.compare].
      destruct ok3.
      * (* accepted at the third attempt: the counter is 0 *)
        rewrite (passwordSecond_step 2 0 p3 _ _ _ _ _ E4).
        change (int_dec 0) with (-1)%Z. cbn [Z.leb Z.compare].
        destruct (ok4 && bytes_eqb p4 p3) eqn:M4; [budget_leaf|].
        assert (is_reason (if ok4 then NO_MATCH else p4)) as Hr4
          by (destruct ok4; [exact Hnm | now apply (Hr false p4 R4)]).
        budget_leaf.
      * pose proof (Hr false p3 R3 eq_refl) as Hr3.
        budget_leaf.
Qed.

(** C9: In both password loops the counter is decremented on every
    attempt, successful or not, and the exhaustion check runs only after
    a failed one.  So a valid entry (in the confirmation loop: valid and
    equal to the first) is accepted whatever the counter is when the
    attempt starts, zero and negative included, while a failed entry ends
    the session once the decremented counter is zero or less.  In
    particular, after two rejected entries and a third, accepted one the
    user gets exactly one confirmation attempt: the session ends when it
    does not match, the password is collected when it does, and the user
    is then registered (the directory accepting the add and the
    password-set). *)
Theorem password_counter_every_attempt :
  (forall fuel i w w1 p evs,
     readPassword w = (Done (true, p), w1, evs) ->
     passwordFirst (S fuel) i w
     = (Done (p, int_dec i), w1, EvWrite PASSWORD_PROMPT :: evs))
  /\ (forall fuel i w w1 p evs,
        readPassword w = (Done (false, p), w1, evs) ->
        passwordFirst (S fuel) i w
        = if (int_dec i <=? 0)%Z then
            (Returned, w1,
             EvWrite PASSWORD_PROMPT :: evs
             ++ [EvWrite (p ++ [LF]); EvWrite PASSWORD_FAILED])
          else
            let '(r, w2, evs2) := passwordFirst fuel (int_dec i) w1 in
            (r, w2,
             EvWrite PASSWORD_PROMPT :: evs ++ EvWrite (p ++ [LF]) :: evs2))
  /\ (forall fuel i w w1 passwd evs,
        readPassword w = (Done (true, passwd), w1, evs) ->
        passwordSecond (S fuel) i passwd w
        = (Done tt, w1, EvWrite REPEAT_PROMPT :: evs))
  /\ (forall fuel i passwd w w1 ok p evs,
        readPassword w = (Done (ok, p), w1, evs) ->
        ok && bytes_eqb p passwd = false ->
        passwordSecond (S fuel) i passwd w
        = let reason := if ok then NO_MATCH else p in
          if (int_dec i <=? 0)%Z then
            (Returned, w1,
             EvWrite REPEAT_PROMPT :: evs
             ++ [EvWrite (reason ++ [LF]); EvWrite PASSWORD_FAILED])
          else
            let '(r, w2, evs2) := passwordSecond fuel (int_dec i) passwd w1 in
            (r, w2,
             EvWrite REPEAT_PROMPT :: evs ++ EvWrite (reason ++ [LF]) :: evs2))
  /\ (forall w w1 w2 w3 w4 r1 r2 passwd ok4 p4 e1 e2 e3 e4,
        readPassword w = (Done (false, r1), w1, e1) ->
        readPassword w1 = (Done (false, r2), w2, e2) ->
        readPassword w2 = (Done (true, passwd), w3, e3) ->
        readPassword w3 = (Done (ok4, p4), w4, e4) ->
        passwordFirst 3 3 w
        = (Done (passwd, 0%Z), w3,
           EvWrite PASSWORD_PROMPT :: e1 ++ EvWrite (r1 ++ [LF])
           :: EvWrite PASSWORD_PROMPT :: e2 ++ EvWrite (r2 ++ [LF])
           :: EvWrite PASSWORD_PROMPT :: e3)
        /\ collectPassword w
           = if ok4 && bytes_eqb p4 passwd then
               (Done passwd, w4,
                (EvWrite PASSWORD_PROMPT :: e1 ++ EvWrite (r1 ++ [LF])
                 :: EvWrite PASSWORD_PROMPT :: e2 ++ EvWrite (r2 ++ [LF])
                 :: EvWrite PASSWORD_PROMPT :: e3)
                ++ EvWrite REPEAT_PROMPT :: e4)
             else
               (Returned, w4,
                (EvWrite PASSWORD_PROMPT :: e1 ++ EvWrite (r1 ++ [LF])
                 :: EvWrite PASSWORD_PROMPT :: e2 ++ EvWrite (r2 ++ [LF])
                 :: EvWrite PASSWORD_PROMPT :: e3)
                ++ EvWrite REPEAT_PROMPT :: e4
                ++ [EvWrite ((if ok4 then NO_MATCH else p4) ++ [LF]);
                    EvWrite PASSWORD_FAILED]))
  /\ (forall user mail w w1 w2 w3 w4 r1 r2 passwd p4 e1 e2 e3 e4,
        readPassword w = (Done (false, r1), w1, e1) ->
        readPassword w1 = (Done (false, r2), w2, e2) ->
        readPassword w2 = (Done (true, passwd), w3, e3) ->
        readPassword w3 = (Done (true, p4), w4, e4) ->
        p4 = passwd ->
        ldap_search env (LdapUserScope options) (exists_filter user)
          = Some 0%nat ->
        ldap_add_ok env (user_dn user) = true ->
        ldap_passwd_ok env (user_dn user) passwd = true ->
        directory user mail w
        = (Done tt, w4,
           EvLdapSearch (LdapUserScope options) (exists_filter user)
           :: EvWrite NOT_REGISTERED
           :: EvWrite (PASWORD_RULES (PasswordMin options) (PasswordMax options))
           :: ((EvWrite PASSWORD_PROMPT :: e1 ++ EvWrite (r1 ++ [LF])
                :: EvWrite PASSWORD_PROMPT :: e2 ++ EvWrite (r2 ++ [LF])
                :: EvWrite PASSWORD_PROMPT :: e3)
               ++ EvWrite REPEAT_PROMPT :: e4)
           ++ [EvWrite REGISTERING;
               EvLdapAdd (user_dn user) (bytes_of "email") [mail];
               EvLdapPasswordModify (user_dn user) passwd;
               EvWrite (ALREADY_REGISTERED login_url)])).
Proof.
  assert (Hscen : forall w w1 w2 w3 w4 r1 r2 passwd ok4 p4 e1 e2 e3 e4,
        readPassword w = (Done (false, r1), w1, e1) ->
        readPassword w1 = (Done (false, r2), w2, e2) ->
        readPassword w2 = (Done (true, passwd), w3, e3) ->
        readPassword w3 = (Done (ok4, p4), w4, e4) ->
        passwordFirst 3 3 w
        = (Done (passwd, 0%Z), w3,
           EvWrite PASSWORD_PROMPT :: e1 ++ EvWrite (r1 ++ [LF])
           :: EvWrite PASSWORD_PROMPT :: e2 ++ EvWrite (r2 ++ [LF])
           :: EvWrite PASSWORD_PROMPT :: e3)
        /\ collectPassword w
           = if ok4 && bytes_eqb p4 passwd then
               (Done passwd, w4,
                (EvWrite PASSWORD_PROMPT :: e1 ++ EvWrite (r1 ++ [LF])
                 :: EvWrite PASSWORD_PROMPT :: e2 ++ EvWrite (r2 ++ [LF])
                 :: EvWrite PASSWORD_PROMPT :: e3)
                ++ EvWrite REPEAT_PROMPT :: e4)
             else
               (Returned, w4,
                (EvWrite PASSWORD_PROMPT :: e1 ++ EvWrite (r1 ++ [LF])
                 :: EvWrite PASSWORD_PROMPT :: e2 ++ EvWrite (r2 ++ [LF])
                 :: EvWrite PASSWORD_PROMPT :: e3)
                ++ EvWrite REPEAT_PROMPT :: e4
                ++ [EvWrite ((if ok4 then NO_MATCH else p4) ++ [LF]);
                    EvWrite PASSWORD_FAILED])).
  2: split; [|split; [|split; [|split; [|split]]]].
  { intros w w1 w2 w3 w4 r1 r2 passwd ok4 p4 e1 e2 e3 e4 E1 E2 E3 E4.
    assert (passwordFirst 3 3 w
            = (Done (passwd, 0%Z), w3,
               EvWrite PASSWORD_PROMPT :: e1 ++ EvWrite (r1 ++ [LF])
               :: EvWrite PASSWORD_PROMPT :: e2 ++ EvWrite (r2 ++ [LF])
               :: EvWrite PASSWORD_PROMPT :: e3)) as EF.
    { rewrite (passwordFirst_step 2 3 _ _ _ _ _ E1).
      change (int_dec 3) with 2%Z. cbn [Z.leb Z.compare].
      rewrite (passwordFirst_step 1 2 _ _ _ _ _ E2).
      change (int_dec 2) with 1%Z. cbn [Z.leb Z.compare].
      rewrite (passwordFirst_step 0 1 _ _ _ _ _ E3).
      reflexivity. }
    split; [exact EF|].
    rewrite collectPassword_eq, EF.
    rewrite (passwordSecond_step 2 0 passwd _ _ _ _ _ E4).
    destruct (ok4 && bytes_eqb p4 passwd); [reflexivity|].
    change (int_dec 0) with (-1)%Z. cbn [Z.leb Z.compare].
    reflexivity. }
  - intros fuel i w w1 p evs E.
    now rewrite (passwordFirst_step fuel i _ _ _ _ _ E).
  - intros fuel i w w1 p evs E.
    now rewrite (passwordFirst_step fuel i _ _ _ _ _ E).
  - intros fuel i w w1 passwd evs E.
    rewrite (passwordSecond_step fuel i passwd _ _ _ _ _ E).
    now rewrite bytes_eqb_refl.
  - intros fuel i passwd w w1 ok p evs E Hno.
    rewrite (passwordSecond_step fuel i passwd _ _ _ _ _ E).
    now rewrite Hno.
  - exact Hscen.
  - intros user mail w w1 w2 w3 w4 r1 r2 passwd p4 e1 e2 e3 e4
      E1 E2 E3 E4 -> Hsearch Hadd Hpw.
    destruct (Hscen _ _ _ _ _ _ _ _ _ _ _ _ _ _ E1 E2 E3 E4) as [_ Ec].
    rewrite bytes_eqb_refl in Ec. cbn [andb] in Ec.
    rewrite directory_eq, Hsearch. cbn [Nat.ltb Nat.leb].
    rewrite collect_then_register, Ec, registration_eq, register_eq, Hadd, Hpw.
    reflexivity.
Qed.

(** ** Reading a typed line *)

(** A line of filter-passing bytes, none of them a backspace or a
    carriage return, read from the state that holds [acc]. *)
Lemma readN_loop_typed (l : N) (onlyIn : bytes) (wr : bool) (rest : bytes) :
  l < uint_mod ->
  forall (cand acc : bytes),
    Forall (fun b => b <> DEL /\ b <> CR /\ passes onlyIn b = true) cand ->
    (length acc <= N.to_nat l)%nat ->
    (readN_loop l onlyIn wr (filled (N.to_nat l) acc)
       (N.of_nat (length acc)) (cand ++ CR :: rest)).1
    = (Done (filled (N.to_nat l) (acc ++ cand),
             N.min (N.of_nat (length (acc ++ cand))) l), rest).
Proof.
  intros Hl. induction cand as [|b cand IH]; intros acc Hc Hacc.
  - cbn [app readN_loop].
    change (byte_eqb CR DEL) with false. change (byte_eqb CR CR) with true.
    cbn [fst]. rewrite app_nil_r. do 3 f_equal. lia.
  - apply Forall_cons in Hc as [(Hdel & Hcr & Hp) Hc].
    apply byte_eqb_neq in Hdel, Hcr.
    cbn [app readN_loop]. rewrite Hdel, Hcr, passes_guard, Hp. cbn [negb].
    destruct (N.of_nat (length acc) <? l) eqn:Hlt.
    + apply N.ltb_lt in Hlt.
      assert (Hst : store (filled (N.to_nat l) acc) (N.of_nat (length acc)) b
                    = Some (filled (N.to_nat l) (acc ++ [b]))).
      { rewrite store_in_range.
        2: { unfold filled. rewrite length_app, length_take, length_replicate. lia. }
        f_equal. unfold filled.
        rewrite !take_ge by (rewrite ?length_app; simpl; lia).
        rewrite Nat2N.id, length_app. simpl.
        replace (N.to_nat l - length acc)%nat
          with (S (N.to_nat l - (length acc + 1)))%nat by lia.
        simpl. rewrite <- app_assoc. simpl.
        rewrite insert_app_r_alt by lia.
        rewrite Nat.sub_diag. reflexivity. }
      rewrite Hst, uint_inc_small by lia.
      specialize (IH (acc ++ [b]) Hc).
      rewrite length_app in IH. simpl in IH.
      replace (N.of_nat (length acc + 1)) with (N.of_nat (length acc) + 1)
        in IH by lia.
      rewrite <- app_assoc in IH. simpl in IH.
      destruct (readN_loop l onlyIn wr (filled (N.to_nat l) (acc ++ [b]))
                  (N.of_nat (length acc) + 1) (cand ++ CR :: rest))
        as [[r rest'] evs].
      simpl in *. apply IH. lia.
    + apply N.ltb_ge in Hlt.
      rewrite (IH acc Hc Hacc).
      unfold filled. rewrite !length_app. simpl.
      rewrite !take_app_le by lia.
      replace (N.to_nat l - (length acc + length cand))%nat
        with 0%nat by lia.
      replace (N.to_nat l - (length acc + S (length cand)))%nat
        with 0%nat by lia.
      do 3 f_equal. lia.
Qed.

Lemma letters_plain (b : byte) :
  contains letters b = true -> b <> DEL /\ b <> CR /\ passes letters b = true.
Proof.
  intros H. repeat split; try exact H; intros ->; vm_compute in H;
    discriminate H.
Qed.

(** What [readPassword] reads from a typed line. *)
Lemma readPassword_typed (cand rest : bytes) (w : World) :
  PasswordMax options < uint_mod ->
  Forall (fun b => contains letters b = true) cand ->
  stream w = cand ++ CR :: rest ->
  exists evs,
    readN (PasswordMax options) letters false w
    = (Done (filled (N.to_nat (PasswordMax options)) cand,
             N.min (N.of_nat (length cand)) (PasswordMax options)),
       mkWorld rest (rng w), evs).
Proof.
  intros Hl Hc Hs.
  assert (H : (readN_loop (PasswordMax options) letters false
                 (replicate (N.to_nat (PasswordMax options)) NUL) 0
                 (cand ++ CR :: rest)).1
              = (Done (filled (N.to_nat (PasswordMax options)) cand,
                       N.min (N.of_nat (length cand)) (PasswordMax options)),
                 rest)).
  { pose proof (readN_loop_typed (PasswordMax options) letters false rest Hl
                  cand [] (Forall_impl _ _ _ Hc letters_plain)
                  ltac:(simpl; lia)) as H.
    unfold filled at 1 in H. simpl in H.
    rewrite Nat.sub_0_r, take_nil in H. exact H. }
  unfold readN, readN_pure. rewrite Hs.
  destruct (readN_loop (PasswordMax options) letters false
              (replicate (N.to_nat (PasswordMax options)) NUL) 0
              (cand ++ CR :: rest)) as [[r rest'] evs].
  simpl in H. injection H as -> ->.
  now exists evs.
Qed.

(** C3, as the code has it: for every candidate typed as a line of
    allowed characters, the reader keeps its first [PasswordMax] bytes
    at most.  Validation rejects the candidate as too short exactly when
    the count kept is below the minimum; a candidate longer than the
    maximum is therefore not rejected for its length, but cut to the
    maximum, and never accepted as entered.  A candidate that fills the
    buffer is rejected as a rule violation when the bytes kept do not
    match the pattern, and accepted as those bytes otherwise. *)
Theorem readPassword_policy (cand rest : bytes) (w : World) :
  PasswordMax options < uint_mod ->
  Forall (fun b => contains letters b = true) cand ->
  stream w = cand ++ CR :: rest ->
  (N.min (N.of_nat (length cand)) (PasswordMax options) < PasswordMin options ->
     result (readPassword w) = Done (false, TOO_SHORT))
  /\ (PasswordMin options <= N.min (N.of_nat (length cand)) (PasswordMax options) ->
        result (readPassword w) <> Done (false, TOO_SHORT))
  /\ (PasswordMin options <= PasswordMax options ->
      PasswordMax options <= N.of_nat (length cand) ->
        result (readPassword w)
        = Done (if passwordRegexp_Match env
                     (take (N.to_nat (PasswordMax options)) cand)
                then (true, take (N.to_nat (PasswordMax options)) cand)
                else (false, NOT_COMPLIANT)))
  /\ (PasswordMax options < N.of_nat (length cand) ->
        result (readPassword w) <> Done (true, cand)).
Proof.
  intros Hl Hc Hs.
  destruct (readPassword_typed cand rest w Hl Hc Hs) as [evs E].
  unfold readPassword, bnd. rewrite E. unfold result.
  set (hi := PasswordMax options) in *. set (lo := PasswordMin options) in *.
  set (n := N.min (N.of_nat (length cand)) hi).
  assert (Hlen : length (filled (N.to_nat hi) cand) = N.to_nat hi).
  { unfold filled. rewrite length_app, length_take, length_replicate. lia. }
  destruct (n <? lo) eqn:Hn; [apply N.ltb_lt in Hn | apply N.ltb_ge in Hn].
  - simpl. unfold n in *.
    repeat split; intros; try reflexivity; try lia; discriminate.
  - destruct (passwordRegexp_Match env (filled (N.to_nat hi) cand)) eqn:Hm;
      simpl.
    + unfold n in *. repeat split; intros; try lia; try discriminate.
      * unfold filled in Hm |- *.
        replace (N.to_nat hi - length cand)%nat with 0%nat in * by lia.
        simpl in *. rewrite app_nil_r in *. now rewrite Hm.
      * intros H'. injection H' as H'. apply (f_equal (@length byte)) in H'.
        rewrite Hlen in H'. lia.
    + unfold n in *. repeat split; intros; try lia; try discriminate.
      unfold filled in Hm.
      replace (N.to_nat hi - length cand)%nat with 0%nat in * by lia.
      simpl in *. rewrite app_nil_r in *. now rewrite Hm.
Qed.

(** ** Further properties of the line reader *)

(** X1: [contains] decides membership in the slice. *)
Theorem contains_elem_of (elems : bytes) (v : byte) :
  contains elems v = true <-> v ∈ elems.
Proof.
  induction elems as [|s elems IH]; simpl.
  - split; [discriminate | intros H; now apply elem_of_nil in H].
  - rewrite elem_of_cons. destruct (byte_eqb v s) eqn:E.
    + apply byte_eqb_eq in E. tauto.
    + apply byte_eqb_neq in E. tauto.
Qed.

(** X2: the echo flag changes what the reader writes and nothing else:
    with and without echo it returns the same outcome, buffer and count
    and leaves the same bytes unread. *)
Theorem readN_echo_only_writes (l : N) (onlyIn : bytes) (wr wr' : bool)
    (s : bytes) :
  (readN_pure l onlyIn wr s).1 = (readN_pure l onlyIn wr' s).1.
Proof. apply readN_loop_echo_indep. Qed.

(** The accepted slots hold bytes of the stream that the reader can
    append. *)
Lemma readN_loop_accepted (l : N) (onlyIn : bytes) (wr : bool)
    (P : byte -> Prop) :
  forall (s res : bytes) (in_ : N) res' n rest evs,
    readN_loop l onlyIn wr res in_ s = (Done (res', n), rest, evs) ->
    (forall b, b ∈ s -> appendable onlyIn b -> P b) ->
    (forall (j : nat) b, (j < N.to_nat in_)%nat -> res !! j = Some b -> P b) ->
    forall (j : nat) b, (j < N.to_nat n)%nat -> res' !! j = Some b -> P b.
Proof.
  induction s as [|c s IH]; intros res in_ res' n rest evs E Hs Hres.
  - simpl in E. injection E as <- <- <- <-. exact Hres.
  - assert (Hs' : forall b, b ∈ s -> appendable onlyIn b -> P b).
    { intros b Hb. apply Hs. apply elem_of_cons. now right. }
    simpl in E.
    destruct (byte_eqb c DEL) eqn:Hdel.
    + destruct (0 <? in_) eqn:Hpos; [|exact (IH _ _ _ _ _ _ E Hs' Hres)].
      apply N.ltb_lt in Hpos.
      unfold store in E.
      destruct (uint_dec in_ <? N.of_nat (length res)); [|discriminate E].
      destruct (readN_loop l onlyIn wr _ (uint_dec in_) s)
        as [[r0 rest0] evs0] eqn:E0.
      injection E as -> <- <-.
      apply (IH _ _ _ _ _ _ E0 Hs').
      assert (uint_dec in_ < in_) as Hlt.
      { unfold uint_dec, uint_mod.
        destruct (N.lt_ge_cases in_ (2 ^ 64)) as [Hs1|Hs1].
        - replace (in_ + 2 ^ 64 - 1) with (in_ - 1 + 1 * 2 ^ 64) by lia.
          rewrite N.Div0.mod_add, N.mod_small; lia.
        - pose proof (N.mod_upper_bound (in_ + 2 ^ 64 - 1) (2 ^ 64)
                        ltac:(discriminate)). lia. }
      intros j b Hj Hb.
      rewrite list_lookup_insert_ne in Hb by lia.
      apply (Hres j b); [lia | exact Hb].
    + destruct (byte_eqb c CR) eqn:Hcr.
      { injection E as <- <- <- <-. exact Hres. }
      rewrite passes_guard in E.
      destruct (passes onlyIn c) eqn:Hp; cbn [negb] in E;
        [|exact (IH _ _ _ _ _ _ E Hs' Hres)].
      destruct (in_ <? l) eqn:Hlt; [|exact (IH _ _ _ _ _ _ E Hs' Hres)].
      unfold store in E.
      destruct (in_ <? N.of_nat (length res)) eqn:Hb; [|discriminate E].
      apply N.ltb_lt in Hb.
      destruct (readN_loop l onlyIn wr _ (uint_inc in_) s)
        as [[r0 rest0] evs0] eqn:E0.
      injection E as -> <- <-.
      apply (IH _ _ _ _ _ _ E0 Hs').
      assert (uint_inc in_ <= in_ + 1) as Hle.
      { unfold uint_inc. apply N.Div0.mod_le. }
      intros j b Hj Hlk.
      destruct (decide (j = N.to_nat in_)) as [->|Hne].
      * rewrite list_lookup_insert_eq in Hlk by lia.
        injection Hlk as <-. apply Hs; [apply elem_of_cons; now left|].
        apply byte_eqb_neq in Hdel, Hcr. now repeat split.
      * rewrite list_lookup_insert_ne in Hlk by congruence.
        apply (Hres j b); [lia | exact Hlk].
Qed.

(** X3: every accepted byte, that is every byte of the returned buffer
    below the returned count, is a byte of the stream that is neither
    the backspace nor the carriage return and that passes the filter. *)
Theorem readN_accepted_bytes (l : N) (onlyIn : bytes) (wr : bool) (s : bytes) :
  l < uint_mod ->
  exists res n rest evs,
    readN_pure l onlyIn wr s = (Done (res, n), rest, evs)
    /\ forall j : nat, (j < N.to_nat n)%nat ->
         exists b, res !! j = Some b /\ b ∈ s /\ appendable onlyIn b.
Proof.
  intros Hl.
  destruct (readN_pure_inv l onlyIn wr s Hl)
    as (res & n & rest & evs & E & Hlen & Hn & _).
  exists res, n, rest, evs. split; [exact E|].
  intros j Hj.
  destruct (lookup_lt_is_Some_2 res j ltac:(lia)) as [b Hb].
  exists b. split; [exact Hb|].
  unfold readN_pure in E.
  refine (readN_loop_accepted l onlyIn wr
            (fun b => b ∈ s /\ appendable onlyIn b)
            _ _ _ _ _ _ _ E _ _ j b Hj Hb); [tauto|].
  intros j' b' Hj'. simpl in Hj'. lia.
Qed.

(** X4: a byte the reader drops is a no-op.  After a prefix without
    carriage return, a byte that is neither backspace nor carriage return
    and that either fails the filter or arrives when the buffer is full
    changes nothing: outcome, buffer, count, unread bytes and writes are
    those of the stream without it. *)
Theorem readN_dropped_byte (l : N) (onlyIn : bytes) (wr : bool)
    (pre post : bytes) (b : byte) res n rest0 evs :
  CR ∉ pre ->
  readN_pure l onlyIn wr pre = (Done (res, n), rest0, evs) ->
  b <> DEL -> b <> CR ->
  passes onlyIn b = false \/ l <= n ->
  readN_pure l onlyIn wr (pre ++ b :: post)
  = readN_pure l onlyIn wr (pre ++ post).
Proof.
  intros Hcr E Hdel Hbcr Hdrop. unfold readN_pure in *.
  destruct (readN_loop_app l onlyIn wr (b :: post) _ _ _ _ _ _ _ Hcr E)
    as [_ ->].
  destruct (readN_loop_app l onlyIn wr post _ _ _ _ _ _ _ Hcr E) as [_ ->].
  apply byte_eqb_neq in Hdel, Hbcr.
  cbn [readN_loop]. rewrite Hdel, Hbcr, passes_guard.
  destruct Hdrop as [Hp | Hfull].
  - now rewrite Hp.
  - destruct (passes onlyIn b); cbn [negb]; [|reflexivity].
    apply N.ltb_ge in Hfull. now rewrite Hfull.
Qed.

(** X5: the reader of the earlier iterations is the present reader with
    the echo on: same outcome, buffer, count, unread bytes and writes. *)
Theorem legacy_readN_is_echoing_readN (l : N) (onlyIn : bytes) (s : bytes) :
  Legacy.readN_pure l onlyIn s = readN_pure l onlyIn true s.
Proof.
  unfold Legacy.readN_pure, readN_pure.
  generalize (replicate (N.to_nat l) NUL) as res. generalize 0 as in_.
  induction s as [|b s IH]; intros in_ res; [reflexivity|].
  cbn [Legacy.readN_loop readN_loop].
  destruct (byte_eqb b DEL).
  - destruct (0 <? in_); [|apply IH].
    destruct (store res (uint_dec in_) SP); [|reflexivity].
    now rewrite IH.
  - destruct (byte_eqb b CR); [reflexivity|].
    destruct ((0 <? length onlyIn)%nat && negb (contains onlyIn b)); [apply IH|].
    destruct (in_ <? l); [|apply IH].
    destruct (store res in_ b); [|reflexivity].
    now rewrite IH.
Qed.

(** ** Further properties of the token and the password reader *)

Lemma letters_lookup (x : N) :
  exists c, letters !! N.to_nat (x mod N.of_nat (length letters)) = Some c.
Proof.
  apply lookup_lt_is_Some_2.
  pose proof (N.mod_upper_bound x (N.of_nat (length letters))
                ltac:(discriminate)). lia.
Qed.

Lemma letters_alnum (c : byte) : c ∈ letters -> is_alnum c = true.
Proof.
  intros H. apply list_elem_of_In in H.
  assert (Hall : forallb is_alnum letters = true) by (vm_compute; reflexivity).
  rewrite forallb_forall in Hall. now apply Hall.
Qed.

Lemma randomString_loop_spec (n : nat) :
  forall w : World,
    exists token,
      randomString_loop n w
      = (Done token, mkWorld (stream w) (drop n (rng w)), [])
      /\ length token = n
      /\ Forall (fun c => c ∈ letters) token.
Proof.
  induction n as [|n IH]; intros w.
  - exists []. destruct w as [st r]. repeat split; constructor.
  - cbn [randomString_loop]. unfold bnd at 1, rand_Intn.
    destruct w as [st r]. cbn [rng stream].
    destruct r as [|x r].
    + destruct (letters_lookup 0) as [c Hc].
      rewrite N.Div0.mod_0_l in Hc.
      unfold bnd at 1, index. cbn [N.to_nat]. rewrite Hc. unfold ret at 1.
      destruct (IH (mkWorld st [])) as (token & E & Hlen & Hall).
      unfold bnd at 1. rewrite E. cbn.
      exists (c :: token).
      split; [now rewrite drop_nil|]. split; [simpl; now rewrite Hlen|].
      constructor; [|exact Hall].
      now apply list_elem_of_lookup_2 with 0%nat.
    + destruct (letters_lookup x) as [c Hc].
      unfold bnd at 1, index. rewrite Hc. unfold ret at 1.
      destruct (IH (mkWorld st r)) as (token & E & Hlen & Hall).
      unfold bnd at 1. rewrite E. cbn.
      exists (c :: token).
      split; [reflexivity|]. split; [simpl; now rewrite Hlen|].
      constructor; [|exact Hall].
      now apply list_elem_of_lookup_2
        with (N.to_nat (x mod N.of_nat (length letters))).
Qed.

(** X6: [randomString n] never fails and touches neither the stream nor
    the session: it returns a string of exactly [n] bytes, each one a
    member of [letters] and so a letter or a digit, and uses up the next
    [n] numbers of the random source. *)
Theorem randomString_alphanumeric (n : N) (w : World) :
  exists token,
    randomString n w
    = (Done token, mkWorld (stream w) (drop (N.to_nat n) (rng w)), [])
    /\ length token = N.to_nat n
    /\ Forall (fun c => c ∈ letters /\ is_alnum c = true) token.
Proof.
  destruct (randomString_loop_spec (N.to_nat n) w) as (token & E & Hlen & Hall).
  exists token. repeat split; auto.
  eapply Forall_impl; [exact Hall|].
  intros c Hc. split; [exact Hc | now apply letters_alnum].
Qed.

Lemma bnd_events_Forall_post {A B} (P : Event -> Prop) (m : M A)
    (k : A -> M B) (w : World) :
  Forall P (events (m w)) ->
  (forall a w' evs, m w = (Done a, w', evs) -> Forall P (events (k a w'))) ->
  Forall P (events (bnd m k w)).
Proof.
  intros Hm Hk. unfold bnd, events in *.
  destruct (m w) as [[[a| | | |] w'] evs]; simpl in *; auto.
  specialize (Hk a w' evs eq_refl).
  destruct (k a w') as [[r w''] evs']. simpl in *.
  apply Forall_app. auto.
Qed.

(** Without echo the reader writes the line break and nothing else. *)
Lemma readN_loop_masked (l : N) (onlyIn : bytes) :
  forall (s res : bytes) (in_ : N),
    Forall (fun e => e = EvWrite [LF; CR])
      (readN_loop l onlyIn false res in_ s).2.
Proof.
  induction s as [|b s IH]; intros res in_; [constructor|].
  simpl.
  destruct (byte_eqb b DEL).
  - destruct (0 <? in_); [|apply IH].
    destruct (store res (uint_dec in_) SP) as [res'|]; [|constructor].
    specialize (IH res' (uint_dec in_)).
    now destruct (readN_loop l onlyIn false res' (uint_dec in_) s)
      as [[r rest] evs].
  - destruct (byte_eqb b CR); [repeat constructor|].
    destruct ((0 <? length onlyIn)%nat && negb (contains onlyIn b)); [apply IH|].
    destruct (in_ <? l); [|apply IH].
    destruct (store res in_ b) as [res'|]; [|constructor].
    specialize (IH res' (uint_inc in_)).
    now destruct (readN_loop l onlyIn false res' (uint_inc in_) s)
      as [[r rest] evs].
Qed.

Ltac fixed_message :=
  eexists; split; [reflexivity|]; unfold password_messages;
  repeat first [apply list_elem_of_here | apply list_elem_of_further].

Lemma readPassword_masked (w : World) :
  Forall (fun e => exists p, e = EvWrite p /\ p ∈ password_messages)
    (events (readPassword w)).
Proof.
  unfold readPassword. apply bnd_events_Forall.
  - unfold readN, readN_pure, events.
    pose proof (readN_loop_masked (PasswordMax options) letters (stream w)
                  (replicate (N.to_nat (PasswordMax options)) NUL) 0) as H.
    destruct (readN_loop _ _ _ _ _ _) as [[r rest] evs]. simpl in *.
    eapply Forall_impl; [exact H|]. intros e ->. fixed_message.
  - intros [passwd read] w'.
    destruct (read <? PasswordMin options); [constructor|].
    destruct (negb (passwordRegexp_Match env passwd)); constructor.
Qed.

(** A rejection by [readPassword] carries one of its two reasons. *)
Lemma readPassword_reason (w w' : World) (p : bytes) (evs : list Event) :
  readPassword w = (Done (false, p), w', evs) ->
  p = TOO_SHORT \/ p = NOT_COMPLIANT.
Proof.
  unfold readPassword, bnd.
  destruct (readN (PasswordMax options) letters false w)
    as [[[[buf n]| | | |] w1] e1]; try discriminate.
  destruct (n <? PasswordMin options).
  - intros H. injection H as <- _ _. now left.
  - destruct (passwordRegexp_Match env buf); cbn.
    + discriminate.
    + intros H. injection H as <- _ _. now right.
Qed.

Lemma passwordFirst_masked (fuel : nat) (i : Z) (w : World) :
  Forall (fun e => exists p, e = EvWrite p /\ p ∈ password_messages)
    (events (passwordFirst fuel i w)).
Proof.
  revert i w. induction fuel as [|fuel IH]; intros i w; [constructor|].
  cbn [passwordFirst].
  apply bnd_events_Forall; [repeat constructor; fixed_message|].
  intros _ w1. apply bnd_events_Forall_post; [apply readPassword_masked|].
  intros [ok p] w2 evs E. destruct ok; [constructor|]. cbn [negb].
  destruct (readPassword_reason _ _ _ _ E) as [-> | ->];
    (apply bnd_events_Forall; [repeat constructor; fixed_message|]);
    intros _ w3; (destruct (int_dec i <=? 0)%Z; [|apply IH]);
    (apply bnd_events_Forall; [repeat constructor; fixed_message|]);
    intros; constructor.
Qed.

Lemma passwordSecond_masked (fuel : nat) (i : Z) (passwd : bytes) (w : World) :
  Forall (fun e => exists p, e = EvWrite p /\ p ∈ password_messages)
    (events (passwordSecond fuel i passwd w)).
Proof.
  revert i w. induction fuel as [|fuel IH]; intros i w; [constructor|].
  cbn [passwordSecond].
  apply bnd_events_Forall; [repeat constructor; fixed_message|].
  intros _ w1. apply bnd_events_Forall_post; [apply readPassword_masked|].
  intros [ok p] w2 evs E.
  assert (Hfail : forall r, In r [TOO_SHORT; NOT_COMPLIANT; NO_MATCH] ->
            Forall (fun e => exists p, e = EvWrite p /\ p ∈ password_messages)
              (events ((write (r ++ [LF]) ;;;
                        if (int_dec i <=? 0)%Z
                        then write PASSWORD_FAILED ;;; do_return
                        else passwordSecond fuel (int_dec i) passwd) w2))).
  { intros r Hr.
    apply bnd_events_Forall.
    - simpl in Hr. destruct Hr as [<-|[<-|[<-|[]]]];
        repeat constructor; fixed_message.
    - intros _ w3. destruct (int_dec i <=? 0)%Z; [|apply IH].
      apply bnd_events_Forall; [repeat constructor; fixed_message|].
      intros; constructor. }
  destruct ok; cbn [andb].
  - destruct (bytes_eqb p passwd); cbn [negb]; [constructor|].
    apply Hfail. simpl. tauto.
  - cbn [negb]. apply Hfail.
    destruct (readPassword_reason _ _ _ _ E) as [-> | ->]; simpl; tauto.
Qed.

(** X7: the password collection masks what is typed: whatever the peer
    sends, every event of the collection is the write of one of seven
    fixed messages (the two prompts, the line break, the three rejection
    reasons, the failure message); no typed byte is ever written back. *)
Theorem collectPassword_masks_input (w : World) :
  Forall (fun e => exists p, e = EvWrite p /\ p ∈ password_messages)
    (events (collectPassword w)).
Proof.
  unfold collectPassword.
  apply bnd_events_Forall; [apply passwordFirst_masked|].
  intros [passwd i] w1.
  apply bnd_events_Forall; [apply passwordSecond_masked|].
  intros; constructor.
Qed.

(** X8: a password [readPassword] accepts is the whole buffer: it is
    always exactly [PasswordMax] bytes long and is what the pattern was
    matched against.  A candidate typed with fewer characters than the
    maximum (and enough for the minimum) is therefore judged and returned
    with zero bytes added up to the maximum, never as it was typed. *)
Theorem readPassword_returns_whole_buffer :
  PasswordMax options < uint_mod ->
  (forall w p,
     result (readPassword w) = Done (true, p) ->
     length p = N.to_nat (PasswordMax options)
     /\ passwordRegexp_Match env p = true)
  /\ (forall cand rest w,
        Forall (fun b => contains letters b = true) cand ->
        stream w = cand ++ CR :: rest ->
        PasswordMin options <= N.of_nat (length cand) ->
        N.of_nat (length cand) < PasswordMax options ->
        result (readPassword w)
        = Done (if passwordRegexp_Match env
                     (cand ++ replicate
                                (N.to_nat (PasswordMax options) - length cand) NUL)
                then (true,
                      cand ++ replicate
                                (N.to_nat (PasswordMax options) - length cand) NUL)
                else (false, NOT_COMPLIANT))
        /\ result (readPassword w) <> Done (true, cand)).
Proof.
  intros Hl. split.
  - intros w p.
    destruct (readN_run (PasswordMax options) letters false w Hl)
      as (buf & n & rest & evs & _ & E & Hlen & _).
    unfold readPassword, bnd, result. rewrite E.
    destruct (n <? PasswordMin options); [discriminate|].
    destruct (passwordRegexp_Match env buf) eqn:Hm; cbn; [|discriminate].
    intros H. injection H as <-. auto.
  - intros cand rest w Hc Hs Hlo Hhi.
    destruct (readPassword_typed cand rest w Hl Hc Hs) as [evs E].
    unfold readPassword, bnd, result. rewrite E.
    unfold filled. rewrite take_ge by lia.
    replace (N.min (N.of_nat (length cand)) (PasswordMax options))
      with (N.of_nat (length cand)) by lia.
    apply N.ltb_ge in Hlo. rewrite Hlo.
    destruct (passwordRegexp_Match env _); cbn.
    + split; [reflexivity|]. intros H. injection H as H.
      apply (f_equal (@length byte)) in H.
      rewrite length_app, length_replicate in H. lia.
    + split; [reflexivity | discriminate].
Qed.

(** ** The steps before the directory, case by case *)

(** The consent: the read always returns, and the session goes on
    exactly when one byte was accepted and it is [y]. *)
Lemma consent_cases (mail : bytes) (w : World) :
  exists buf n w1 e,
    readN 1 [ "y"%byte; "n"%byte ] true w = (Done (buf, n), w1, e)
    /\ Forall short_write e
    /\ consent mail w
       = if (n =? 1) && bytes_eqb buf [ "y"%byte ] then
           (Done tt, w1, EvWrite (WELCOME_BODY mail) :: e)
         else
           (Returned, w1, EvWrite (WELCOME_BODY mail) :: e ++ [EvWrite BYE]).
Proof.
  destruct (readN_run 1 [ "y"%byte; "n"%byte ] true w eq_refl)
    as (buf & n & rest & e & _ & E & Hlen & Hn & Hs & _).
  exists buf, n, (mkWorld rest (rng w)), e.
  split; [exact E|]. split; [exact Hs|].
  unfold consent, bnd at 1. unfold write at 1, emit. unfold bnd at 1.
  rewrite E.
  destruct buf as [|b [|]]; try discriminate Hlen.
  assert (n = 0 \/ n = 1) as [-> | ->] by lia.
  - cbn. reflexivity.
  - cbn [N.ltb N.compare Pos.compare Pos.compare_cont N.eqb Pos.eqb andb
         bytes_eqb].
    unfold bnd at 1, index. cbn [lookup list_lookup]. unfold ret at 1.
    rewrite andb_true_r.
    destruct (byte_eqb b "y"); cbn; rewrite ?app_nil_r; reflexivity.
Qed.

(** The token issue: the token is drawn and mailed, and the session goes
    on exactly when the mail was sent. *)
Lemma issue_cases (mail : bytes) (w : World) :
  exists token,
    randomString (TokenLength options) w = (Done token, after_token w, [])
    /\ length token = N.to_nat (TokenLength options)
    /\ Forall (fun c => c ∈ letters) token
    /\ issue mail w
       = if smtp_ok env mail token then
           (Done token, after_token w,
            [EvSendmail mail token; token_log mail token])
         else
           (Returned, after_token w,
            [EvSendmail mail token; EvLog (bytes_of "Could not send mail");
             EvWrite MAIL_FAILED]).
Proof.
  destruct (randomString_loop_spec (N.to_nat (TokenLength options)) w)
    as (token & E & Hlen & Hall).
  exists token. fold (randomString (TokenLength options) w) in E.
  fold (after_token w) in E.
  repeat split; auto.
  unfold issue, bnd at 1. rewrite E.
  unfold bnd at 1, sendmail, bnd at 1, emit, ret.
  destruct (smtp_ok env mail token); reflexivity.
Qed.

Lemma prelude_eq (mail : bytes) (w : World) :
  prelude mail w =
    match consent mail w with
    | (Done _, w1, e1) =>
        match issue mail w1 with
        | (Done token, w2, e2) =>
            let '(r, w3, e3) := tokenLoop 3 3 token w2 in
            (r, w3, e1 ++ e2 ++ e3)
        | (Returned, w2, e2) => (Returned, w2, e1 ++ e2)
        | (Fatal, w2, e2) => (Fatal, w2, e1 ++ e2)
        | (Panicked, w2, e2) => (Panicked, w2, e1 ++ e2)
        | (NoFuel, w2, e2) => (NoFuel, w2, e1 ++ e2)
        end
    | (Returned, w1, e1) => (Returned, w1, e1)
    | (Fatal, w1, e1) => (Fatal, w1, e1)
    | (Panicked, w1, e1) => (Panicked, w1, e1)
    | (NoFuel, w1, e1) => (NoFuel, w1, e1)
    end.
Proof.
  unfold prelude, bnd at 1.
  destruct (consent mail w) as [[[[]| | | |] w1] e1]; try reflexivity.
  unfold bnd at 1.
  destruct (issue mail w1) as [[[token| | | |] w2] e2]; try reflexivity.
  now destruct (tokenLoop 3 3 token w2) as [[r w3] e3].
Qed.

Lemma tokenLoop_writes (fuel : nat) (i : Z) (token : bytes) (w : World) :
  Forall (fun e => is_write e = true) (events (tokenLoop fuel i token w)).
Proof.
  revert i w. induction fuel as [|fuel IH]; intros i w; [constructor|].
  cbn [tokenLoop].
  apply bnd_events_Forall; [repeat constructor|].
  intros _ w1. apply bnd_events_Forall.
  { pose proof (readN_quiet (TokenLength options) [] true w1) as H.
    unfold readN, readN_pure, events in *.
    pose proof (readN_loop_short_writes (TokenLength options) [] true
                  (stream w1) (replicate (N.to_nat (TokenLength options)) NUL) 0)
      as Hs.
    destruct (readN_loop _ _ _ _ _ _) as [[r rest] evs]. simpl in *.
    eapply Forall_impl; [exact Hs|]. now intros e (p & -> & _). }
  intros [buf read] w2.
  destruct (negb (read =? TokenLength options) || negb (bytes_eqb buf token));
    [|constructor].
  destruct (int_dec i =? 0)%Z.
  - apply bnd_events_Forall; [repeat constructor|]. intros; constructor.
  - apply bnd_events_Forall; [repeat constructor|]. intros; apply IH.
Qed.

(** The token loop ends within three turns, by a match or by the third
    failure. *)
Lemma tokenLoop_total (token : bytes) (w : World) :
  TokenLength options < uint_mod ->
  result (tokenLoop 3 3 token w) = Done tt
  \/ result (tokenLoop 3 3 token w) = Returned.
Proof.
  intros Hl.
  destruct (readN_run (TokenLength options) [] true w Hl)
    as (b1 & n1 & r1 & e1 & _ & E1 & _).
  destruct (readN_run (TokenLength options) [] true (mkWorld r1 (rng w)) Hl)
    as (b2 & n2 & r2 & e2 & _ & E2 & _).
  destruct (readN_run (TokenLength options) [] true
              (mkWorld r2 (rng (mkWorld r1 (rng w)))) Hl)
    as (b3 & n3 & r3 & e3 & _ & E3 & _).
  rewrite (tokenLoop_step 2 3 token _ _ _ _ _ E1).
  destruct (token_ok token b1 n1); [now left|].
  change (int_dec 3) with 2%Z. cbn [Z.eqb].
  rewrite (tokenLoop_step 1 2 token _ _ _ _ _ E2).
  destruct (token_ok token b2 n2); [now left|].
  change (int_dec 2) with 1%Z. cbn [Z.eqb].
  rewrite (tokenLoop_step 0 1 token _ _ _ _ _ E3).
  destruct (token_ok token b3 n3); [now left|].
  change (int_dec 1) with 0%Z. cbn [Z.eqb]. now right.
Qed.

Lemma directory_events_kind (user mail : bytes) (w : World) :
  Forall (fun e => in_directory e = true) (events (directory user mail w)).
Proof.
  rewrite directory_eq.
  destruct (ldap_search env _ _) as [n|]; [|repeat constructor].
  destruct (0 <? n)%nat; [repeat constructor|].
  rewrite collect_then_register.
  pose proof (collectPassword_writes w) as Hc.
  destruct (collectPassword w) as [[rc w1] evs].
  unfold events in *. simpl in Hc.
  assert (Hw : Forall (fun e => in_directory e = true) evs).
  { eapply Forall_impl; [exact Hc|]. intros e He. now destruct e. }
  destruct rc as [passwd| | | |]; cbn [snd];
    try (repeat (apply Forall_cons_2; [reflexivity|]); exact Hw).
  rewrite registration_eq, register_eq.
  destruct (ldap_add_ok env _); [destruct (ldap_passwd_ok env _ _)|];
    cbn [snd]; repeat (apply Forall_cons_2; [reflexivity|]);
    (apply Forall_app_2; [exact Hw|]); repeat constructor.
Qed.

(** ** Consent and mail *)

(** X9: the consent gates everything that follows.  The consent read
    always returns; unless exactly one byte was accepted and it is [y],
    the handler writes the goodbye message, closes the session and
    returns, having written nothing but the welcome prompt and the echo;
    so a session that sends a mail had [y] as its answer.  A read that
    the peer cuts off, an empty line and an [n] are all a refusal. *)
Theorem consent_gates_session (user : bytes) (w : World) :
  exists buf n w1 e,
    readN 1 [ "y"%byte; "n"%byte ] true w = (Done (buf, n), w1, e)
    /\ Forall short_write e
    /\ ((n = 1 /\ buf = [ "y"%byte ])
        \/ handler user w
           = (Returned, w1,
              EvWrite (WELCOME_BODY (user ++ ToSuffix options))
              :: e ++ [EvWrite BYE; EvClose]))
    /\ ((exists dest token, EvSendmail dest token ∈ events (handler user w)) ->
        n = 1 /\ buf = [ "y"%byte ]).
Proof.
  destruct (consent_cases (user ++ ToSuffix options) w)
    as (buf & n & w1 & e & E & Hs & Ec).
  exists buf, n, w1, e. split; [exact E|]. split; [exact Hs|].
  destruct ((n =? 1) && bytes_eqb buf [ "y"%byte ]) eqn:Hy.
  - apply andb_true_iff in Hy as [Hn Hb].
    apply N.eqb_eq in Hn. apply bytes_eqb_eq in Hb. tauto.
  - assert (Hh : handler user w
                 = (Returned, w1,
                    EvWrite (WELCOME_BODY (user ++ ToSuffix options))
                    :: e ++ [EvWrite BYE; EvClose])).
    { rewrite handler_eq, prelude_eq, Ec. cbn [app].
      now rewrite <- app_assoc. }
    split; [now right|].
    intros (dest & token & Hin). exfalso.
    rewrite Hh in Hin. unfold events in Hin. cbn [snd] in Hin.
    apply elem_of_cons in Hin as [Hin|Hin]; [discriminate Hin|].
    apply elem_of_app in Hin as [Hin|Hin].
    + rewrite Forall_forall in Hs.
      destruct (Hs _ Hin) as (p & Hp & _). discriminate Hp.
    + repeat (apply elem_of_cons in Hin as [Hin|Hin]; [discriminate Hin|]).
      now apply elem_of_nil in Hin.
Qed.

(** X10: a mail that cannot be sent ends the session.  After the
    consent, when [sendmail] fails for the token drawn, the handler logs
    the failure, writes the failure message, closes the session and
    returns: no token prompt is written and the directory is not
    contacted. *)
Theorem mail_failure_ends_session (user : bytes) (w w1 : World)
    (e1 : list Event) (token : bytes) :
  consent (user ++ ToSuffix options) w = (Done tt, w1, e1) ->
  randomString (TokenLength options) w1 = (Done token, after_token w1, []) ->
  smtp_ok env (user ++ ToSuffix options) token = false ->
  handler user w
  = (Returned, after_token w1,
     e1 ++ [EvSendmail (user ++ ToSuffix options) token;
            EvLog (bytes_of "Could not send mail");
            EvWrite MAIL_FAILED; EvClose]).
Proof.
  intros Ec Er Hs.
  destruct (issue_cases (user ++ ToSuffix options) w1)
    as (token' & Er' & _ & _ & Ei).
  rewrite Er in Er'. injection Er' as <-.
  rewrite Hs in Ei.
  rewrite handler_eq, prelude_eq, Ec, Ei.
  now rewrite <- app_assoc.
Qed.

Lemma short_write_before_mail (e : Event) : short_write e -> before_mail e.
Proof.
  intros (p & -> & Hp). split; [reflexivity|]. simpl.
  destruct (bytes_eqb p TOKEN_BODY) eqn:E; [|reflexivity].
  apply bytes_eqb_eq in E. subst p. simpl in Hp. lia.
Qed.

Lemma write_not_sendmail (e : Event) : is_write e = true -> is_sendmail e = false.
Proof. now destruct e. Qed.

Lemma in_directory_not_sendmail (e : Event) :
  in_directory e = true -> is_sendmail e = false.
Proof. now destruct e. Qed.

(** The events of the handler after those of the prelude. *)
Lemma handler_events_split (user : bytes) (w : World) :
  exists tail,
    events (handler user w)
    = events (prelude (user ++ ToSuffix options) w) ++ tail
    /\ Forall (fun e => is_sendmail e = false) tail
    /\ (result (prelude (user ++ ToSuffix options) w) <> Done tt ->
        tail = [] \/ tail = [EvClose]).
Proof.
  rewrite handler_eq.
  destruct (prelude (user ++ ToSuffix options) w) as [[[[]| | | |] w1] pre];
    unfold events, result; cbn [fst snd].
  - destruct (ldap_bind_ok env).
    + pose proof (directory_events_kind user (user ++ ToSuffix options) w1) as Hd.
      destruct (directory user (user ++ ToSuffix options) w1) as [[r w2] evs].
      unfold events in Hd. cbn [snd] in *.
      eexists. split; [reflexivity|]. split; [|congruence].
      constructor; [reflexivity|]. apply Forall_app_2.
      * eapply Forall_impl; [exact Hd | exact in_directory_not_sendmail].
      * destruct r; repeat constructor.
    + eexists. split; [reflexivity|]. split; [repeat constructor | congruence].
  - exists [EvClose]. split; [reflexivity|]. split; [repeat constructor | auto].
  - exists []. split; [now rewrite app_nil_r|]. split; [constructor | auto].
  - exists [EvClose]. split; [reflexivity|]. split; [repeat constructor | auto].
  - exists []. split; [now rewrite app_nil_r|]. split; [constructor | auto].
Qed.

(** The events of the prelude: a part before the mail and, when a mail
    is sent, the mail and a rest without mail. *)
Lemma prelude_mail_shape (mail : bytes) (w : World) :
  exists A B,
    events (prelude mail w) = A ++ B
    /\ Forall before_mail A
    /\ ((B = [] /\ result (prelude mail w) = Returned)
        \/ exists token C,
             B = EvSendmail mail token :: C
             /\ Forall (fun e => is_sendmail e = false) C
             /\ length token = N.to_nat (TokenLength options)
             /\ Forall (fun c => c ∈ letters) token).
Proof.
  rewrite prelude_eq.
  destruct (consent_cases mail w) as (buf & n & w1 & e & _ & Hs & Ec).
  rewrite Ec.
  assert (Hw : before_mail (EvWrite (WELCOME_BODY mail))) by (split; reflexivity).
  assert (He : Forall before_mail e)
    by (eapply Forall_impl; [exact Hs | exact short_write_before_mail]).
  destruct ((n =? 1) && bytes_eqb buf [ "y"%byte ]).
  - destruct (issue_cases mail w1) as (token & _ & Hlen & Hall & Ei).
    rewrite Ei.
    exists (EvWrite (WELCOME_BODY mail) :: e).
    destruct (smtp_ok env mail token).
    + pose proof (tokenLoop_writes 3 3 token (after_token w1)) as Ht.
      destruct (tokenLoop 3 3 token (after_token w1)) as [[r w3] e3].
      unfold events in *. cbn [snd] in *.
      eexists. split; [reflexivity|]. split; [now constructor|].
      right. exists token. eexists. split; [reflexivity|].
      split; [|auto].
      constructor; [reflexivity|].
      eapply Forall_impl; [exact Ht | exact write_not_sendmail].
    + unfold events. cbn [snd].
      eexists. split; [reflexivity|]. split; [now constructor|].
      right. exists token. eexists. split; [reflexivity|].
      split; [repeat constructor | auto].
  - exists (EvWrite (WELCOME_BODY mail) :: e ++ [EvWrite BYE]), [].
    unfold events, result. cbn [fst snd].
    split; [now rewrite app_nil_r|].
    split; [|now left].
    constructor; [exact Hw|]. apply Forall_app_2; [exact He|].
    repeat constructor.
Qed.

(** A prefix on which [f] is false lies before the first event on which
    it is true. *)
Lemma before_first (f : Event -> bool) (P Q l1 l2 : list Event) (e : Event) :
  Forall (fun e => f e = false) P ->
  P ++ Q = l1 ++ e :: l2 -> f e = true ->
  exists k, l1 = P ++ k.
Proof.
  intros HP. revert l1. induction HP as [|a P Ha _ IH]; intros l1 E He.
  - now exists l1.
  - destruct l1 as [|b l1]; simpl in E; injection E as -> E.
    + congruence.
    + destruct (IH l1 E He) as [k ->]. now exists k.
Qed.

(** X11: a session sends one mail at most.  A mail of a session goes to
    the user name followed by the configured suffix and carries a token
    of the configured length made of letters and digits of [letters];
    and no token prompt is written before the mail is sent. *)
Theorem mail_once_before_prompt (user : bytes) (w : World) :
  (count is_sendmail (events (handler user w)) <= 1)%nat
  /\ (forall dest token,
        EvSendmail dest token ∈ events (handler user w) ->
        dest = user ++ ToSuffix options
        /\ length token = N.to_nat (TokenLength options)
        /\ Forall (fun c => c ∈ letters) token)
  /\ (forall l1 l2,
        events (handler user w) = l1 ++ EvWrite TOKEN_BODY :: l2 ->
        exists token, EvSendmail (user ++ ToSuffix options) token ∈ l1).
Proof.
  destruct (handler_events_split user w) as (tail & -> & Htail & Hend).
  destruct (prelude_mail_shape (user ++ ToSuffix options) w)
    as (A & B & -> & HA & HB).
  assert (HAs : Forall (fun e => is_sendmail e = false) A)
    by (eapply Forall_impl; [exact HA | now intros e [H _]]).
  assert (HAp : Forall (fun e => is_token_prompt e = false) A)
    by (eapply Forall_impl; [exact HA | now intros e [_ H]]).
  assert (Hnone : forall l, Forall (fun e => is_sendmail e = false) l ->
            count is_sendmail l = 0%nat).
  { intros l Hl. unfold count.
    now rewrite (filter_none is_sendmail _ l (fun e H => H) Hl). }
  assert (Hnot : forall l dest token,
            Forall (fun e => is_sendmail e = false) l ->
            EvSendmail dest token ∈ l -> False).
  { intros l dest token Hl Hin. rewrite Forall_forall in Hl.
    specialize (Hl _ Hin). discriminate Hl. }
  destruct HB as [[-> Hret] | (token & C & -> & HC & Hlen & Hall)].
  - (* no mail at all *)
    rewrite app_nil_r.
    assert (Htl : tail = [] \/ tail = [EvClose])
      by (apply Hend; rewrite Hret; discriminate).
    split; [rewrite count_app, !Hnone by assumption; lia|].
    split.
    + intros dest token Hin. exfalso.
      apply elem_of_app in Hin as [Hin|Hin];
        [exact (Hnot _ _ _ HAs Hin) | exact (Hnot _ _ _ Htail Hin)].
    + intros l1 l2 E. exfalso.
      assert (Hall : Forall (fun e => is_token_prompt e = false) (A ++ tail)).
      { apply Forall_app_2; [exact HAp|].
        destruct Htl as [-> | ->]; repeat constructor. }
      rewrite E in Hall. apply Forall_app in Hall as [_ Hall].
      apply Forall_cons in Hall as [Hall _].
      cbn [is_token_prompt] in Hall. now rewrite bytes_eqb_refl in Hall.
  - split.
    { rewrite !count_app, count_cons. cbn [is_sendmail].
      rewrite !Hnone by assumption. lia. }
    split.
    + intros dest token' Hin.
      apply elem_of_app in Hin as [Hin|Hin].
      * apply elem_of_app in Hin as [Hin|Hin];
          [exfalso; exact (Hnot _ _ _ HAs Hin)|].
        apply elem_of_cons in Hin as [Hin|Hin];
          [|exfalso; exact (Hnot _ _ _ HC Hin)].
        injection Hin as -> ->. auto.
      * exfalso; exact (Hnot _ _ _ Htail Hin).
    + intros l1 l2 E. rewrite <- app_assoc in E.
      destruct (before_first is_token_prompt A _ l1 l2 _ HAp E) as [k ->].
      { cbn [is_token_prompt]. apply bytes_eqb_refl. }
      rewrite <- app_assoc in E. apply app_inv_head in E.
      exists token. apply elem_of_app. right.
      destruct k as [|x k]; simpl in E.
      * discriminate E.
      * injection E as <- E. apply elem_of_cons. now left.
Qed.

(** ** Safety and the deferred calls *)

(** The password collection ends within its three units, with the
    password or by a return. *)
Lemma collectPassword_total (w : World) :
  PasswordMax options < uint_mod ->
  (exists passwd, result (collectPassword w) = Done passwd)
  \/ result (collectPassword w) = Returned.
Proof.
  intros Hl.
  destruct (readPassword_run w Hl) as (ok1 & p1 & w1 & e1 & E1 & _).
  destruct (readPassword_run w1 Hl) as (ok2 & p2 & w2 & e2 & E2 & _).
  destruct (readPassword_run w2 Hl) as (ok3 & p3 & w3 & e3 & E3 & _).
  destruct (readPassword_run w3 Hl) as (ok4 & p4 & w4 & e4 & E4 & _).
  rewrite collectPassword_eq.
  rewrite (passwordFirst_step 2 3 _ _ _ _ _ E1).
  change (int_dec 3) with 2%Z. cbn [Z.leb Z.compare].
  destruct ok1.
  - rewrite (passwordSecond_step 2 2 p1 _ _ _ _ _ E2).
    change (int_dec 2) with 1%Z. cbn [Z.leb Z.compare].
    destruct (ok2 && bytes_eqb p2 p1); [left; eexists; reflexivity|].
    rewrite (passwordSecond_step 1 1 p1 _ _ _ _ _ E3).
    change (int_dec 1) with 0%Z. cbn [Z.leb Z.compare].
    destruct (ok3 && bytes_eqb p3 p1);
      [left; eexists; reflexivity | right; reflexivity].
  - rewrite (passwordFirst_step 1 2 _ _ _ _ _ E2).
    change (int_dec 2) with 1%Z. cbn [Z.leb Z.compare].
    destruct ok2.
    + rewrite (passwordSecond_step 2 1 p2 _ _ _ _ _ E3).
      change (int_dec 1) with 0%Z. cbn [Z.leb Z.compare].
      destruct (ok3 && bytes_eqb p3 p2);
        [left; eexists; reflexivity | right; reflexivity].
    + rewrite (passwordFirst_step 0 1 _ _ _ _ _ E3).
      change (int_dec 1) with 0%Z. cbn [Z.leb Z.compare].
      destruct ok3; [|right; reflexivity].
      rewrite (passwordSecond_step 2 0 p3 _ _ _ _ _ E4).
      change (int_dec 0) with (-1)%Z. cbn [Z.leb Z.compare].
      destruct (ok4 && bytes_eqb p4 p3);
        [left; eexists; reflexivity | right; reflexivity].
Qed.

(** X12: the handler is safe and its loops are bounded.  Take a token
    length and a password maximum below 2^20, lengths at which [make]
    allocates its slices (it panics on a length it cannot address, 2^63
    and more for certain, and such lengths are left out), and a peer
    whose input ends: after its last byte every read fails.  Then,
    whatever the peer has sent and whatever the mail and directory
    servers answer, no slice is indexed out of range and each of the
    three loops ends within three turns: the handler runs to its end,
    returns, or exits the process on a directory error.  A peer that
    stays connected and silent keeps the handler waiting in [Read]; that
    is no stream of the model. *)
Theorem handler_never_panics (user : bytes) (w : World) :
  TokenLength options < 2 ^ 20 ->
  PasswordMax options < 2 ^ 20 ->
  result (handler user w) = Done tt
  \/ result (handler user w) = Returned
  \/ result (handler user w) = Fatal.
Proof.
  intros Ht0 Hp0.
  assert (Ht : TokenLength options < uint_mod)
    by (eapply N.lt_trans; [exact Ht0 | reflexivity]).
  assert (Hp : PasswordMax options < uint_mod)
    by (eapply N.lt_trans; [exact Hp0 | reflexivity]).
  rewrite handler_eq, prelude_eq.
  destruct (consent_cases (user ++ ToSuffix options) w)
    as (buf & n & w1 & e & _ & _ & ->).
  destruct ((n =? 1) && bytes_eqb buf [ "y"%byte ]); [|right; now left].
  destruct (issue_cases (user ++ ToSuffix options) w1)
    as (token & _ & _ & _ & ->).
  destruct (smtp_ok env _ token); [|right; now left].
  pose proof (tokenLoop_total token (after_token w1) Ht) as Hloop.
  destruct (tokenLoop 3 3 token (after_token w1)) as [[r w3] e3].
  unfold result in Hloop. cbn [fst] in Hloop.
  destruct Hloop as [-> | ->]; [|right; now left].
  destruct (ldap_bind_ok env); [|right; now right].
  rewrite directory_eq.
  destruct (ldap_search env _ _) as [k|]; [|right; now right].
  destruct (0 <? k)%nat; [right; now left|].
  rewrite collect_then_register.
  pose proof (collectPassword_total w3 Hp) as Hc.
  destruct (collectPassword w3) as [[rc w4] e4].
  unfold result in Hc. cbn [fst] in Hc.
  destruct Hc as [[passwd ->] | ->]; [|right; now left].
  rewrite registration_eq, register_eq.
  destruct (ldap_add_ok env _); [destruct (ldap_passwd_ok env _ _)|];
    unfold result; cbn [fst]; tauto.
Qed.

Lemma quiet_not_close (pre : list Event) :
  Forall quiet pre ->
  Forall (fun e => e <> EvClose /\ e <> EvLdapClose /\ e <> EvLdapBind) pre.
Proof.
  intros H. eapply Forall_impl; [exact H|]. intros e He.
  destruct e; simpl in He; try contradiction; repeat split; discriminate.
Qed.

Lemma in_directory_not_close (evs : list Event) :
  Forall (fun e => in_directory e = true) evs ->
  Forall (fun e => e <> EvClose /\ e <> EvLdapClose /\ e <> EvLdapBind) evs.
Proof.
  intros H. eapply Forall_impl; [exact H|]. intros e He.
  destruct e; simpl in He; try discriminate; repeat split; discriminate.
Qed.

(** X13: the deferred closes.  A handler that exits the process on a
    directory error closes neither the session nor the directory
    connection.  Every other handler closes the session as its very last
    action, and, when it has bound to the directory, closes that
    connection just before; it binds at most once. *)
Theorem deferred_closes (user : bytes) (w : World) :
  (result (handler user w) = Fatal ->
     Forall (fun e => e <> EvClose /\ e <> EvLdapClose)
       (events (handler user w)))
  /\ (result (handler user w) <> Fatal ->
      result (handler user w) <> NoFuel ->
        last (events (handler user w)) = Some EvClose
        /\ (EvLdapBind ∈ events (handler user w) ->
            exists evs,
              events (handler user w) = evs ++ [EvLdapClose; EvClose]
              /\ count (fun e => match e with EvLdapBind => true | _ => false end)
                   evs = 1%nat
              /\ Forall (fun e => e <> EvClose /\ e <> EvLdapClose) evs)).
Proof.
  rewrite handler_eq.
  pose proof (prelude_quiet (user ++ ToSuffix options) w) as Hq.
  destruct (prelude (user ++ ToSuffix options) w) as [[r w1] pre].
  unfold events in Hq. cbn [snd] in Hq.
  apply quiet_not_close in Hq.
  assert (Hq2 : Forall (fun e => e <> EvClose /\ e <> EvLdapClose) pre)
    by (eapply Forall_impl; [exact Hq | intros e0 (? & ? & ?); auto]).
  assert (Hnb : EvLdapBind ∈ pre -> False).
  { intros H. rewrite Forall_forall in Hq. now destruct (Hq _ H) as (_ & _ & ?). }
  assert (Hret : forall tl, EvLdapBind ∈ pre ++ [EvClose] -> tl).
  { intros tl H. exfalso. apply elem_of_app in H as [H|H]; [auto|].
    apply list_elem_of_singleton in H. discriminate H. }
  assert (Hpre0 : count (fun e => match e with EvLdapBind => true | _ => false end)
                    pre = 0%nat).
  { unfold count. erewrite filter_none; [reflexivity | | exact Hq].
    intros e (_ & _ & He). destruct e; congruence. }
  destruct r as [[]| | | |]; unfold result, events; cbn [fst snd].
  - destruct (ldap_bind_ok env).
    + pose proof (directory_events_kind user (user ++ ToSuffix options) w1) as Hd.
      destruct (directory user (user ++ ToSuffix options) w1) as [[r w2] evs].
      unfold events in Hd. cbn [fst snd] in *.
      pose proof (in_directory_not_close _ Hd) as Hd'.
      assert (Hd2 : Forall (fun e => e <> EvClose /\ e <> EvLdapClose) evs)
        by (eapply Forall_impl; [exact Hd' | intros e0 (? & ? & ?); auto]).
      assert (Hd0 : count (fun e => match e with EvLdapBind => true | _ => false end)
                      evs = 0%nat).
      { unfold count. erewrite filter_none; [reflexivity | | exact Hd'].
        intros e (_ & _ & He). destruct e; congruence. }
      split.
      * intros ->. cbn [closes]. rewrite app_nil_r.
        apply Forall_app_2; [exact Hq2|].
        constructor; [split; discriminate | exact Hd2].
      * intros H1 H2.
        assert (closes r = [EvLdapClose; EvClose]) as ->
          by (destruct r; try reflexivity; congruence).
        replace (pre ++ EvLdapBind :: evs ++ [EvLdapClose; EvClose])
          with ((pre ++ EvLdapBind :: evs) ++ [EvLdapClose; EvClose])
          by (now rewrite <- app_assoc).
        split.
        { replace [EvLdapClose; EvClose] with ([EvLdapClose] ++ [EvClose])
            by reflexivity.
          rewrite app_assoc. apply last_snoc. }
        intros _. eexists. split; [reflexivity|]. split.
        { rewrite count_app, count_cons, Hpre0, Hd0. reflexivity. }
        apply Forall_app_2; [exact Hq2|].
        constructor; [split; discriminate | exact Hd2].
    + cbn [fst snd]. split; [|intros H; congruence].
      intros _. apply Forall_app_2; [exact Hq2|].
      repeat constructor; discriminate.
  - split; [discriminate|]. intros _ _.
    split; [apply last_snoc | apply Hret].
  - split; [intros _; exact Hq2 | intros H; congruence].
  - split; [discriminate|]. intros _ _.
    split; [apply last_snoc | apply Hret].
  - split; [discriminate | intros _ H; congruence].
Qed.

(** X14: [register] is not transactional.  In a session that reaches the
    registration, a refused add exits the process before any password is
    set; a refused password-set exits the process after the entry was
    added, and nothing removes the entry.  Either way the session is not
    closed and no final message is written. *)
Theorem registration_not_transactional (user : bytes) (w w1 w2 : World)
    (pre evs_c : list Event) (passwd : bytes) :
  prelude (user ++ ToSuffix options) w = (Done tt, w1, pre) ->
  ldap_bind_ok env = true ->
  ldap_search env (LdapUserScope options) (exists_filter user) = Some 0%nat ->
  collectPassword w1 = (Done passwd, w2, evs_c) ->
  handler user w
  = (if ldap_add_ok env (user_dn user)
        && ldap_passwd_ok env (user_dn user) passwd
     then Done tt else Fatal,
     w2,
     pre ++ EvLdapBind
     :: EvLdapSearch (LdapUserScope options) (exists_filter user)
     :: EvWrite NOT_REGISTERED
     :: EvWrite (PASWORD_RULES (PasswordMin options) (PasswordMax options))
     :: evs_c
     ++ EvWrite REGISTERING
     :: EvLdapAdd (user_dn user) (bytes_of "email") [user ++ ToSuffix options]
     :: (if ldap_add_ok env (user_dn user) then
           EvLdapPasswordModify (user_dn user) passwd
           :: (if ldap_passwd_ok env (user_dn user) passwd then
                 [EvWrite (ALREADY_REGISTERED login_url); EvLdapClose; EvClose]
               else
                 [EvLog (bytes_of "Error while registering a new user with LDAP")])
         else
           [EvLog (bytes_of "Error while registering a new user with LDAP")])).
Proof.
  intros Epre Hbind Hsearch Ecol.
  rewrite handler_eq, Epre, Hbind, directory_eq, Hsearch.
  cbn [Nat.ltb Nat.leb].
  rewrite collect_then_register, Ecol, registration_eq, register_eq.
  destruct (ldap_add_ok env (user_dn user));
    [destruct (ldap_passwd_ok env (user_dn user) passwd)|];
    cbn; repeat (rewrite <- app_assoc; cbn); rewrite ?app_nil_r; reflexivity.
Qed.

(** ** Disconnects and the empty token *)

(** A read from a stream without carriage return uses the stream up. *)
Lemma readN_uses_up (l : N) (onlyIn : bytes) (wr : bool) (w w' : World)
    (buf : bytes) (n : N) (e : list Event) :
  CR ∉ stream w ->
  readN l onlyIn wr w = (Done (buf, n), w', e) ->
  w' = mkWorld [] (rng w).
Proof.
  intros Hcr. unfold readN, readN_pure.
  destruct (readN_loop l onlyIn wr (replicate (N.to_nat l) NUL) 0 (stream w))
    as [[r rest] evs] eqn:E.
  intros H. injection H as -> <- <-.
  now destruct (readN_loop_app l onlyIn wr [] _ _ _ _ _ _ _ Hcr E) as [-> _].
Qed.

(** On a closed stream every token attempt fails at once. *)
Lemma tokenLoop_disconnected (token : bytes) (r : list N) :
  0 < TokenLength options ->
  tokenLoop 3 3 token (mkWorld [] r)
  = (Returned, mkWorld [] r,
     [EvWrite TOKEN_BODY; EvWrite (TOKEN_RETRY 2);
      EvWrite TOKEN_BODY; EvWrite (TOKEN_RETRY 1);
      EvWrite TOKEN_BODY; EvWrite TOKEN_FAILED]).
Proof.
  intros Hpos.
  assert (E : readN (TokenLength options) [] true (mkWorld [] r)
              = (Done (replicate (N.to_nat (TokenLength options)) NUL, 0),
                 mkWorld [] r, [])) by reflexivity.
  assert (Hno : forall b, token_ok token b 0 = false).
  { intros b. unfold token_ok.
    destruct (0 =? TokenLength options) eqn:H0; [|reflexivity].
    apply N.eqb_eq in H0. lia. }
  rewrite (tokenLoop_step 2 3 token _ _ _ _ _ E), Hno.
  change (int_dec 3) with 2%Z. cbn [Z.eqb].
  rewrite (tokenLoop_step 1 2 token _ _ _ _ _ E), Hno.
  change (int_dec 2) with 1%Z. cbn [Z.eqb].
  rewrite (tokenLoop_step 0 1 token _ _ _ _ _ E), Hno.
  change (int_dec 1) with 0%Z. cbn [Z.eqb].
  reflexivity.
Qed.

(** X15: a peer that never ends a line is never looked up.  When the
    bytes the peer sends hold no carriage return (it disconnects, at the
    latest, in the middle of its first line) and the token length is not
    zero, the handler returns and closes the session without any
    directory operation: either the consent is refused, or the mail
    fails, or all three token attempts fail on the closed stream. *)
Theorem incomplete_line_no_directory (user : bytes) (w : World) :
  CR ∉ stream w ->
  0 < TokenLength options ->
  result (handler user w) = Returned
  /\ last (events (handler user w)) = Some EvClose
  /\ Forall (fun e => is_ldap e = false) (events (handler user w))
  /\ stream (world (handler user w)) = [].
Proof.
  intros Hcr Hpos.
  rewrite handler_eq, prelude_eq.
  destruct (consent_cases (user ++ ToSuffix options) w)
    as (buf & n & w1 & e & E & Hs & ->).
  pose proof (readN_uses_up _ _ _ _ _ _ _ _ Hcr E) as ->.
  assert (He : Forall (fun e => is_ldap e = false) e).
  { eapply Forall_impl; [exact Hs|]. now intros x (p & -> & _). }
  destruct ((n =? 1) && bytes_eqb buf [ "y"%byte ]).
  - destruct (issue_cases (user ++ ToSuffix options) (mkWorld [] (rng w)))
      as (token & _ & _ & _ & ->).
    destruct (smtp_ok env _ token).
    + unfold after_token. cbn [stream rng].
      rewrite (tokenLoop_disconnected token _ Hpos).
      unfold result, events, world. cbn [fst snd stream].
      split; [reflexivity|]. split.
      { apply last_snoc. }
      split; [|reflexivity].
      repeat first [apply Forall_app_2 | apply Forall_cons_2; [reflexivity|]
                   | exact He | apply Forall_nil_2].
    + unfold result, events, world, after_token. cbn [fst snd stream].
      split; [reflexivity|]. split.
      { apply last_snoc. }
      split; [|reflexivity].
      repeat first [apply Forall_app_2 | apply Forall_cons_2; [reflexivity|]
                   | exact He | apply Forall_nil_2].
  - unfold result, events, world. cbn [fst snd stream].
    split; [reflexivity|]. split; [apply last_snoc|].
    split; [|reflexivity].
    repeat first [apply Forall_app_2 | apply Forall_cons_2; [reflexivity|]
                 | exact He | apply Forall_nil_2].
Qed.

(** On a closed stream [readPassword] finds the entry too short. *)
Lemma readPassword_disconnected (r : list N) :
  0 < PasswordMin options ->
  readPassword (mkWorld [] r) = (Done (false, TOO_SHORT), mkWorld [] r, []).
Proof.
  intros Hpos. unfold readPassword, bnd.
  change (readN (PasswordMax options) letters false (mkWorld [] r))
    with (Done (replicate (N.to_nat (PasswordMax options)) NUL, 0),
          mkWorld [] r, @nil Event).
  cbv beta iota. apply N.ltb_lt in Hpos. now rewrite Hpos.
Qed.

(** X16: a password entry cut off by a disconnect is never registered.
    When the bytes left hold no carriage return and the minimum length
    is not zero, the password collection ends the session, whatever was
    typed before the disconnect, even a valid password: the entries that
    follow are read from the closed stream and are too short.  So the
    directory part of such a session performs no add and no
    password-set. *)
Theorem password_cut_off_not_registered (w : World) :
  CR ∉ stream w ->
  0 < PasswordMin options ->
  PasswordMax options < uint_mod ->
  result (collectPassword w) = Returned
  /\ last (events (collectPassword w)) = Some (EvWrite PASSWORD_FAILED)
  /\ forall user mail,
       result (directory user mail w) <> Done tt
       /\ Forall (fun e => is_mutation e = false)
            (events (directory user mail w)).
Proof.
  intros Hcr Hpos Hl.
  destruct (readPassword_run w Hl) as (ok1 & p1 & w1 & e1 & E1 & _).
  assert (w1 = mkWorld [] (rng w)) as ->.
  { revert E1. unfold readPassword, bnd.
    destruct (readN (PasswordMax options) letters false w)
      as [[[[buf n]| | | |] w'] e'] eqn:E; try discriminate.
    pose proof (readN_uses_up _ _ _ _ _ _ _ _ Hcr E) as ->.
    destruct (n <? PasswordMin options); [intros H; now injection H|].
    destruct (negb (passwordRegexp_Match env buf)); intros H; now injection H. }
  pose proof (readPassword_disconnected (rng w) Hpos) as E2.
  assert (Hcol : exists evs,
            collectPassword w
            = (Returned, mkWorld [] (rng w), evs ++ [EvWrite PASSWORD_FAILED])).
  { rewrite collectPassword_eq.
    rewrite (passwordFirst_step 2 3 _ _ _ _ _ E1).
    change (int_dec 3) with 2%Z. cbn [Z.leb Z.compare].
    destruct ok1.
    - rewrite (passwordSecond_step 2 2 p1 _ _ _ _ _ E2).
      change (int_dec 2) with 1%Z. cbn [Z.leb Z.compare andb].
      rewrite (passwordSecond_step 1 1 p1 _ _ _ _ _ E2).
      change (int_dec 1) with 0%Z. cbn [Z.leb Z.compare andb].
      exists ((EvWrite PASSWORD_PROMPT :: e1)
              ++ [EvWrite REPEAT_PROMPT; EvWrite (TOO_SHORT ++ [LF]);
                  EvWrite REPEAT_PROMPT; EvWrite (TOO_SHORT ++ [LF])]).
      f_equal. cbn [app]. rewrite <- app_assoc. reflexivity.
    - rewrite (passwordFirst_step 1 2 _ _ _ _ _ E2).
      change (int_dec 2) with 1%Z. cbn [Z.leb Z.compare].
      rewrite (passwordFirst_step 0 1 _ _ _ _ _ E2).
      change (int_dec 1) with 0%Z. cbn [Z.leb Z.compare].
      exists (EvWrite PASSWORD_PROMPT :: e1
              ++ [EvWrite (p1 ++ [LF]); EvWrite PASSWORD_PROMPT;
                  EvWrite (TOO_SHORT ++ [LF]); EvWrite PASSWORD_PROMPT;
                  EvWrite (TOO_SHORT ++ [LF])]).
      f_equal. cbn [app]. rewrite <- app_assoc. reflexivity. }
  destruct Hcol as [evs Ec].
  split; [now rewrite Ec|].
  split; [rewrite Ec; apply last_snoc|].
  intros user mail. rewrite directory_eq.
  destruct (ldap_search env _ _) as [k|];
    [|split; [discriminate | repeat constructor]].
  destruct (0 <? k)%nat; [split; [discriminate | repeat constructor]|].
  rewrite collect_then_register.
  pose proof (collectPassword_writes w) as Hw.
  rewrite Ec in Hw |- *. unfold events in *. cbn [fst snd] in *.
  split; [discriminate|].
  repeat (apply Forall_cons_2; [reflexivity|]).
  eapply Forall_impl; [exact Hw | exact write_not_mutation].
Qed.

(** X17: with a token length of zero the token is the empty string and
    the verification is void: the first attempt succeeds whatever the
    peer sends, even nothing. *)
Theorem empty_token_always_verified (w : World) :
  TokenLength options = 0 ->
  exists token w1 e,
    randomString (TokenLength options) w = (Done token, after_token w, [])
    /\ token = []
    /\ tokenLoop 3 3 token w = (Done tt, w1, EvWrite TOKEN_BODY :: e).
Proof.
  intros H0.
  destruct (issue_cases [] w) as (token & Er & Hlen & _).
  rewrite H0 in Hlen. destruct token; [|discriminate Hlen].
  destruct (readN_run (TokenLength options) [] true w)
    as (buf & n & rest & e & _ & E & Hb & Hn & _).
  { rewrite H0. reflexivity. }
  exists [], (mkWorld rest (rng w)), e.
  split; [exact Er|]. split; [reflexivity|].
  rewrite (tokenLoop_step 2 3 [] _ _ _ _ _ E).
  rewrite H0 in Hb, Hn. destruct buf; [|discriminate Hb].
  assert (n = 0) as -> by lia.
  unfold token_ok. now rewrite H0.
Qed.

(** ** Confirmation and directory errors *)






(** X19: a directory error exits the process.  In a session that has
    passed the token verification, a failed bind exits before any
    search, and a failed search exits before any message to the user;
    in both cases the log entry is the last event and no deferred close
    runs. *)
Theorem directory_error_exits (user : bytes) (w w1 : World) (pre : list Event) :
  prelude (user ++ ToSuffix options) w = (Done tt, w1, pre) ->
  (ldap_bind_ok env = false ->
     handler user w
     = (Fatal, w1,
        pre ++ [EvLdapBind; EvLog (bytes_of "Could not bind to LDAP")]))
  /\ (ldap_bind_ok env = true ->
      ldap_search env (LdapUserScope options) (exists_filter user) = None ->
        handler user w
        = (Fatal, w1,
           pre ++ [EvLdapBind;
                   EvLdapSearch (LdapUserScope options) (exists_filter user);
                   EvLog (bytes_of "Error while searching LDAP user")])).
Proof.
  intros Epre. split.
  - intros Hb. now rewrite handler_eq, Epre, Hb.
  - intros Hb Hs. now rewrite handler_eq, Epre, Hb, directory_eq, Hs.
Qed.

End Session.

(** ** The session on a concrete configuration *)

Ltac in_list :=
  apply list_elem_of_In; vm_compute;
  repeat first [left; reflexivity | right].

(** C1: a session of a user who is not registered, with consent, the
    right token and a valid password entered twice, registers the user
    and then writes the already-registered message as its last message;
    the registration-success message is not written at all. *)
Theorem registered_session_last_message :
  result (handler demo_options demo_env (bytes_of "alice") world_registers)
  = Done tt
  /\ List.filter is_mutation
       (events (handler demo_options demo_env (bytes_of "alice") world_registers))
     = [EvLdapAdd (bytes_of "uid=alice,ou=people,dc=example,dc=com")
          (bytes_of "email") [bytes_of "alice@localhost"];
        EvLdapPasswordModify (bytes_of "uid=alice,ou=people,dc=example,dc=com")
          (bytes_of "Abcdefgh1")]
  /\ last (writes
       (events (handler demo_options demo_env (bytes_of "alice") world_registers)))
     = Some (ALREADY_REGISTERED (login_url demo_options demo_env))
  /\ forallb
       (fun p => negb (bytes_eqb p
                         (REGISTRATION_SUCCESS (login_url demo_options demo_env))))
       (writes
          (events (handler demo_options demo_env (bytes_of "alice") world_registers)))
     = true
  /\ ALREADY_REGISTERED (login_url demo_options demo_env)
     <> REGISTRATION_SUCCESS (login_url demo_options demo_env).
Proof.
  repeat split; try (vm_compute; reflexivity).
  intros H. vm_compute in H. discriminate H.
Qed.

(** C2, refuted as stated: a valid first entry followed by two entries
    that do not repeat it ends the session with the password-failure
    message after two failures only; the successful first attempt has
    taken the counter from three to two. *)
Lemma password_budget_counterexample :
  result (collectPassword demo_options demo_env world_two_mismatches) = Returned
  /\ last (events (collectPassword demo_options demo_env world_two_mismatches))
     = Some (EvWrite PASSWORD_FAILED)
  /\ failures (events (collectPassword demo_options demo_env world_two_mismatches))
     = 2%nat
  /\ result (passwordFirst demo_options demo_env 3 3 world_two_mismatches)
     = Done (bytes_of "Abcdefgh1", 2%Z)
  /\ ~ (result (collectPassword demo_options demo_env world_two_mismatches)
        = Returned
        <-> failures
              (events (collectPassword demo_options demo_env world_two_mismatches))
            = 3%nat).
Proof.
  repeat split; try (vm_compute; reflexivity).
  intros [H _]. specialize (H ltac:(vm_compute; reflexivity)).
  vm_compute in H. discriminate H.
Qed.

(** C3, refuted as stated: a candidate of ten allowed characters, one
    more than the maximum of nine, is to be rejected as too short by the
    specification; the code accepts its first nine characters. *)
Lemma readPassword_overlong_counterexample :
  validate_spec demo_options demo_env (bytes_of "Abcdefgh12")
  = (false, TOO_SHORT)
  /\ result (readPassword demo_options demo_env world_overlong)
     = Done (true, bytes_of "Abcdefgh1")
  /\ result (readPassword demo_options demo_env world_overlong)
     <> Done (validate_spec demo_options demo_env (bytes_of "Abcdefgh12")).
Proof.
  repeat split; try (vm_compute; reflexivity).
  intros H. vm_compute in H. discriminate H.
Qed.

Lemma password_budget_counts_attempts_witness :
  PasswordMax demo_options < uint_mod
  /\ ((exists passwd,
         result (collectPassword demo_options demo_env world_two_mismatches)
         = Done passwd)
      \/ result (collectPassword demo_options demo_env world_two_mismatches)
         = Returned)
  /\ (result (collectPassword demo_options demo_env world_two_mismatches)
      = Returned
      <-> (3 <= attempts (events (collectPassword demo_options demo_env
                                    world_two_mismatches))
           /\ attempts (events (collectPassword demo_options demo_env
                                  world_two_mismatches))
              <= failures (events (collectPassword demo_options demo_env
                                     world_two_mismatches)) + 1)%nat)
  /\ (result (collectPassword demo_options demo_env world_two_mismatches)
      = Returned ->
        last (events (collectPassword demo_options demo_env world_two_mismatches))
        = Some (EvWrite PASSWORD_FAILED)
        /\ (exhaustions (events (collectPassword demo_options demo_env
                                   world_two_mismatches)) = 1
            /\ 2 <= failures (events (collectPassword demo_options demo_env
                                        world_two_mismatches)) <= 3
            /\ attempts (events (collectPassword demo_options demo_env
                                   world_two_mismatches)) <= 4)%nat)
  /\ (forall passwd,
        result (collectPassword demo_options demo_env world_two_mismatches)
        = Done passwd ->
        (exhaustions (events (collectPassword demo_options demo_env
                                world_two_mismatches)) = 0
         /\ attempts (events (collectPassword demo_options demo_env
                                world_two_mismatches))
            = failures (events (collectPassword demo_options demo_env
                                  world_two_mismatches)) + 2
         /\ failures (events (collectPassword demo_options demo_env
                                world_two_mismatches)) <= 2)%nat)
  /\ (forall passwd i w' evs,
        passwordFirst demo_options demo_env 3 3 world_two_mismatches
        = (Done (passwd, i), w', evs) ->
        i = (3 - Z.of_nat (attempts evs))%Z).
Proof.
  split; [reflexivity|].
  apply (password_budget_counts_attempts demo_options demo_env
           world_two_mismatches).
  reflexivity.
Defined.

Lemma readPassword_policy_witness :
  (PasswordMax demo_options < uint_mod
   /\ Forall (fun b => contains letters b = true) (bytes_of "Abcdefgh12")
   /\ stream world_overlong = bytes_of "Abcdefgh12" ++ CR :: [])
  /\ (N.min (N.of_nat (length (bytes_of "Abcdefgh12"))) (PasswordMax demo_options)
      < PasswordMin demo_options ->
        result (readPassword demo_options demo_env world_overlong)
        = Done (false, TOO_SHORT))
  /\ (PasswordMin demo_options
      <= N.min (N.of_nat (length (bytes_of "Abcdefgh12"))) (PasswordMax demo_options) ->
        result (readPassword demo_options demo_env world_overlong)
        <> Done (false, TOO_SHORT))
  /\ (PasswordMin demo_options <= PasswordMax demo_options ->
      PasswordMax demo_options <= N.of_nat (length (bytes_of "Abcdefgh12")) ->
        result (readPassword demo_options demo_env world_overlong)
        = Done (if passwordRegexp_Match demo_env
                     (take (N.to_nat (PasswordMax demo_options))
                        (bytes_of "Abcdefgh12"))
                then (true, take (N.to_nat (PasswordMax demo_options))
                              (bytes_of "Abcdefgh12"))
                else (false, NOT_COMPLIANT)))
  /\ (PasswordMax demo_options < N.of_nat (length (bytes_of "Abcdefgh12")) ->
        result (readPassword demo_options demo_env world_overlong)
        <> Done (true, bytes_of "Abcdefgh12")).
Proof.
  assert (Hc : Forall (fun b => contains letters b = true)
                 (bytes_of "Abcdefgh12")) by (repeat constructor).
  split; [split; [reflexivity | split; [exact Hc | reflexivity]]|].
  exact (readPassword_policy demo_options demo_env (bytes_of "Abcdefgh12") []
           world_overlong eq_refl Hc eq_refl).
Defined.

Lemma token_three_attempts_witness :
  TokenLength demo_options < uint_mod
  /\ exists b1 n1 w1 e1 b2 n2 w2 e2 b3 n3 w3 e3,
       readN (TokenLength demo_options) [] true world_token_third
       = (Done (b1, n1), w1, e1)
       /\ readN (TokenLength demo_options) [] true w1 = (Done (b2, n2), w2, e2)
       /\ readN (TokenLength demo_options) [] true w2 = (Done (b3, n3), w3, e3)
       /\ length b1 = N.to_nat (TokenLength demo_options)
       /\ length b2 = N.to_nat (TokenLength demo_options)
       /\ length b3 = N.to_nat (TokenLength demo_options)
       /\ (forall b n, token_ok demo_options (bytes_of "aaaaaa") b n = true
                       <-> n = TokenLength demo_options /\ b = bytes_of "aaaaaa")
       /\ tokenLoop demo_options 3 3 (bytes_of "aaaaaa") world_token_third =
            if token_ok demo_options (bytes_of "aaaaaa") b1 n1 then
              (Done tt, w1, EvWrite TOKEN_BODY :: e1)
            else if token_ok demo_options (bytes_of "aaaaaa") b2 n2 then
              (Done tt, w2,
               EvWrite TOKEN_BODY :: e1 ++ EvWrite (TOKEN_RETRY 2)
               :: EvWrite TOKEN_BODY :: e2)
            else if token_ok demo_options (bytes_of "aaaaaa") b3 n3 then
              (Done tt, w3,
               EvWrite TOKEN_BODY :: e1 ++ EvWrite (TOKEN_RETRY 2)
               :: EvWrite TOKEN_BODY :: e2 ++ EvWrite (TOKEN_RETRY 1)
               :: EvWrite TOKEN_BODY :: e3)
            else
              (Returned, w3,
               EvWrite TOKEN_BODY :: e1 ++ EvWrite (TOKEN_RETRY 2)
               :: EvWrite TOKEN_BODY :: e2 ++ EvWrite (TOKEN_RETRY 1)
               :: EvWrite TOKEN_BODY :: e3 ++ [EvWrite TOKEN_FAILED]).
Proof.
  split; [reflexivity|].
  apply (token_three_attempts demo_options (bytes_of "aaaaaa")
           world_token_third).
  reflexivity.
Defined.

Lemma already_registered_stops_witness :
  (EvLdapSearch (LdapUserScope demo_options)
     (exists_filter demo_env (bytes_of "bob"))
     ∈ events (handler demo_options demo_env (bytes_of "bob") world_token_only)
   /\ ldap_search demo_env (LdapUserScope demo_options)
        (exists_filter demo_env (bytes_of "bob")) = Some 1%nat
   /\ (0 < 1)%nat)
  /\ result (handler demo_options demo_env (bytes_of "bob") world_token_only)
     = Returned
  /\ last (writes (events (handler demo_options demo_env (bytes_of "bob")
                             world_token_only)))
     = Some (ALREADY_REGISTERED (login_url demo_options demo_env))
  /\ (PASSWORD_PROMPT
        ∉ writes (events (handler demo_options demo_env (bytes_of "bob")
                            world_token_only)))
  /\ (REPEAT_PROMPT
        ∉ writes (events (handler demo_options demo_env (bytes_of "bob")
                            world_token_only)))
  /\ Forall (fun e => is_mutation e = false)
       (events (handler demo_options demo_env (bytes_of "bob") world_token_only))
  /\ exists pre,
       Forall quiet pre
       /\ events (handler demo_options demo_env (bytes_of "bob") world_token_only)
          = pre ++ [EvLdapBind;
                    EvLdapSearch (LdapUserScope demo_options)
                      (exists_filter demo_env (bytes_of "bob"));
                    EvWrite (ALREADY_REGISTERED (login_url demo_options demo_env));
                    EvLdapClose; EvClose].
Proof.
  assert (Hin : EvLdapSearch (LdapUserScope demo_options)
                  (exists_filter demo_env (bytes_of "bob"))
                  ∈ events (handler demo_options demo_env (bytes_of "bob")
                              world_token_only)) by in_list.
  split; [split; [exact Hin | split; [reflexivity | lia]]|].
  exact (already_registered_stops demo_options demo_env (bytes_of "bob")
           world_token_only 1 Hin eq_refl ltac:(lia)).
Defined.

Lemma register_once_witness :
  List.filter is_mutation
    (events (handler demo_options demo_env (bytes_of "alice") world_registers))
  = events (register demo_options demo_env (bytes_of "alice")
              (bytes_of "alice" ++ ToSuffix demo_options)
              (bytes_of "Abcdefgh1") (mkWorld [] []))
  /\ List.filter is_add
       (events (handler demo_options demo_env (bytes_of "alice") world_registers))
     = [EvLdapAdd (user_dn demo_options (bytes_of "alice")) (bytes_of "email")
          [bytes_of "alice" ++ ToSuffix demo_options]]
  /\ (forall dn pw,
        EvLdapPasswordModify dn pw
          ∈ events (handler demo_options demo_env (bytes_of "alice")
                      world_registers) ->
        dn = user_dn demo_options (bytes_of "alice")
        /\ pw = bytes_of "Abcdefgh1").
Proof.
  eassert (Epre : prelude demo_options demo_env
                    (bytes_of "alice" ++ ToSuffix demo_options) world_registers
                  = (Done tt,
                     mkWorld (line "abc" ++ line "Abcdefgh1" ++ line "Abcdefgh1")
                       [], _)) by (vm_compute; reflexivity).
  eassert (Ecol : collectPassword demo_options demo_env
                    (mkWorld (line "abc" ++ line "Abcdefgh1" ++ line "Abcdefgh1")
                       [])
                  = (Done (bytes_of "Abcdefgh1"), mkWorld [] [], _))
    by (vm_compute; reflexivity).
  exact (proj2 (proj2 (register_once demo_options demo_env (bytes_of "alice")
                         world_registers))
           _ _ _ _ _ Epre eq_refl eq_refl Ecol).
Defined.

Lemma password_counter_every_attempt_witness :
  directory demo_options demo_env (bytes_of "alice") (bytes_of "alice@localhost")
    world_last_unit
  = (Done tt, mkWorld [] [],
     EvLdapSearch (LdapUserScope demo_options)
       (exists_filter demo_env (bytes_of "alice"))
     :: EvWrite NOT_REGISTERED
     :: EvWrite (PASWORD_RULES (PasswordMin demo_options)
                   (PasswordMax demo_options))
     :: ((EvWrite PASSWORD_PROMPT :: [EvWrite [LF; CR]]
          ++ EvWrite (TOO_SHORT ++ [LF])
          :: EvWrite PASSWORD_PROMPT :: [EvWrite [LF; CR]]
          ++ EvWrite (NOT_COMPLIANT ++ [LF])
          :: EvWrite PASSWORD_PROMPT :: [EvWrite [LF; CR]])
         ++ EvWrite REPEAT_PROMPT :: [EvWrite [LF; CR]])
     ++ [EvWrite REGISTERING;
         EvLdapAdd (user_dn demo_options (bytes_of "alice")) (bytes_of "email")
           [bytes_of "alice@localhost"];
         EvLdapPasswordModify (user_dn demo_options (bytes_of "alice"))
           (bytes_of "Abcdefgh1");
         EvWrite (ALREADY_REGISTERED (login_url demo_options demo_env))]).
Proof.
  assert (E1 : readPassword demo_options demo_env world_last_unit
               = (Done (false, TOO_SHORT),
                  mkWorld (line "abcdefghi" ++ line "Abcdefgh1"
                           ++ line "Abcdefgh1") [],
                  [EvWrite [LF; CR]])) by (vm_compute; reflexivity).
  assert (E2 : readPassword demo_options demo_env
                 (mkWorld (line "abcdefghi" ++ line "Abcdefgh1"
                           ++ line "Abcdefgh1") [])
               = (Done (false, NOT_COMPLIANT),
                  mkWorld (line "Abcdefgh1" ++ line "Abcdefgh1") [],
                  [EvWrite [LF; CR]])) by (vm_compute; reflexivity).
  assert (E3 : readPassword demo_options demo_env
                 (mkWorld (line "Abcdefgh1" ++ line "Abcdefgh1") [])
               = (Done (true, bytes_of "Abcdefgh1"),
                  mkWorld (line "Abcdefgh1") [], [EvWrite [LF; CR]]))
    by (vm_compute; reflexivity).
  assert (E4 : readPassword demo_options demo_env (mkWorld (line "Abcdefgh1") [])
               = (Done (true, bytes_of "Abcdefgh1"), mkWorld [] [],
                  [EvWrite [LF; CR]])) by (vm_compute; reflexivity).
  exact (proj2 (proj2 (proj2 (proj2 (proj2
           (password_counter_every_attempt demo_options demo_env)))))
           (bytes_of "alice") (bytes_of "alice@localhost")
           _ _ _ _ _ _ _ _ _ _ _ _ _ E1 E2 E3 E4 eq_refl eq_refl eq_refl eq_refl).
Defined.

(** ** Scenarios *)

(** Anything but [y] ends the session with the goodbye message; no mail
    is sent and the directory is not contacted. *)
Example scenario_declined :
  handler demo_options demo_env (bytes_of "alice") world_declines
  = (Returned, mkWorld [] demo_rng,
     [EvWrite (WELCOME_BODY (bytes_of "alice@localhost"));
      EvWrite (bytes_of "n"); EvWrite [LF; CR]; EvWrite BYE; EvClose]).
Proof. vm_compute. reflexivity. Qed.

(** Three wrong tokens: both retry messages, then the exhausted message;
    the handler returns without contacting the directory. *)
Example scenario_wrong_tokens :
  result (handler demo_options demo_env (bytes_of "alice") world_wrong_tokens)
  = Returned
  /\ List.filter is_write
       (List.filter (fun e => negb (is_echo e || is_erase e))
          (events (handler demo_options demo_env (bytes_of "alice")
                     world_wrong_tokens)))
     = [EvWrite (WELCOME_BODY (bytes_of "alice@localhost")); EvWrite [LF; CR];
        EvWrite TOKEN_BODY; EvWrite [LF; CR]; EvWrite (TOKEN_RETRY 2);
        EvWrite TOKEN_BODY; EvWrite [LF; CR]; EvWrite (TOKEN_RETRY 1);
        EvWrite TOKEN_BODY; EvWrite [LF; CR]; EvWrite TOKEN_FAILED]
  /\ List.filter (fun e => negb (is_write e))
       (events (handler demo_options demo_env (bytes_of "alice")
                  world_wrong_tokens))
     = [EvSendmail (bytes_of "alice@localhost") (bytes_of "aaaaaa");
        EvLog (bytes_of "token for alice@localhost is aaaaaa"); EvClose].
Proof. repeat split; vm_compute; reflexivity. Qed.

(** ** The further properties on concrete inputs *)

Ltac no_CR :=
  let H := fresh in
  intros H; apply list_elem_of_In in H; vm_compute in H;
  repeat (destruct H as [H|H]; [discriminate H|]); exact H.

Lemma readN_accepted_bytes_witness :
  2 < uint_mod
  /\ exists res n rest evs,
       readN_pure 2 letters true (bytes_of "a-b" ++ [DEL] ++ bytes_of "cd" ++ [CR])
       = (Done (res, n), rest, evs)
       /\ forall j : nat, (j < N.to_nat n)%nat ->
            exists b, res !! j = Some b
                      /\ b ∈ bytes_of "a-b" ++ [DEL] ++ bytes_of "cd" ++ [CR]
                      /\ appendable letters b.
Proof.
  split; [reflexivity|].
  exact (readN_accepted_bytes 2 letters true
           (bytes_of "a-b" ++ [DEL] ++ bytes_of "cd" ++ [CR]) eq_refl).
Defined.

Lemma readN_dropped_byte_witness :
  ((CR ∉ bytes_of "ab")
   /\ readN_pure 2 letters true (bytes_of "ab")
      = (Done (bytes_of "ab", 2), [], [EvWrite (bytes_of "a"); EvWrite (bytes_of "b")])
   /\ "c"%byte <> DEL /\ "c"%byte <> CR
   /\ (passes letters "c" = false \/ 2 <= 2))
  /\ readN_pure 2 letters true (bytes_of "ab" ++ "c"%byte :: [CR])
     = readN_pure 2 letters true (bytes_of "ab" ++ [CR]).
Proof.
  assert (Hcr : CR ∉ bytes_of "ab") by no_CR.
  assert (H1 : "c"%byte <> DEL) by discriminate.
  assert (H2 : "c"%byte <> CR) by discriminate.
  assert (H3 : passes letters "c" = false \/ 2 <= 2) by (right; lia).
  split; [repeat split; auto|].
  exact (readN_dropped_byte 2 letters true (bytes_of "ab") [CR] "c"
           _ _ _ _ Hcr eq_refl H1 H2 H3).
Defined.

Lemma readPassword_returns_whole_buffer_witness :
  PasswordMax demo_options < uint_mod
  /\ (forall w p,
        result (readPassword demo_options demo_env w) = Done (true, p) ->
        length p = N.to_nat (PasswordMax demo_options)
        /\ passwordRegexp_Match demo_env p = true)
  /\ (forall cand rest w,
        Forall (fun b => contains letters b = true) cand ->
        stream w = cand ++ CR :: rest ->
        PasswordMin demo_options <= N.of_nat (length cand) ->
        N.of_nat (length cand) < PasswordMax demo_options ->
        result (readPassword demo_options demo_env w)
        = Done (if passwordRegexp_Match demo_env
                     (cand ++ replicate
                                (N.to_nat (PasswordMax demo_options) - length cand)
                                NUL)
                then (true,
                      cand ++ replicate
                                (N.to_nat (PasswordMax demo_options) - length cand)
                                NUL)
                else (false, NOT_COMPLIANT))
        /\ result (readPassword demo_options demo_env w) <> Done (true, cand)).
Proof.
  split; [reflexivity|].
  exact (readPassword_returns_whole_buffer demo_options demo_env eq_refl).
Defined.

(** The candidate [Abcdefg1], one byte short of the maximum: the pattern
    is asked about it with a zero byte added, and refuses. *)
Example short_password_is_padded :
  result (readPassword demo_options demo_env world_short_password)
  = Done (false, NOT_COMPLIANT)
  /\ passwordRegexp_Match demo_env (bytes_of "Abcdefg1") = true.
Proof. split; vm_compute; reflexivity. Qed.

Lemma mail_failure_ends_session_witness :
  (consent (bytes_of "alice" ++ ToSuffix demo_options) world_consents
   = (Done tt, mkWorld [] demo_rng,
      [EvWrite (WELCOME_BODY (bytes_of "alice@localhost"));
       EvWrite (bytes_of "y"); EvWrite [LF; CR]])
   /\ randomString (TokenLength demo_options) (mkWorld [] demo_rng)
      = (Done (bytes_of "aaaaaa"),
         after_token demo_options (mkWorld [] demo_rng), [])
   /\ smtp_ok demo_env_no_mail (bytes_of "alice" ++ ToSuffix demo_options)
        (bytes_of "aaaaaa") = false)
  /\ handler demo_options demo_env_no_mail (bytes_of "alice") world_consents
     = (Returned, after_token demo_options (mkWorld [] demo_rng),
        [EvWrite (WELCOME_BODY (bytes_of "alice@localhost"));
         EvWrite (bytes_of "y"); EvWrite [LF; CR]]
        ++ [EvSendmail (bytes_of "alice" ++ ToSuffix demo_options)
              (bytes_of "aaaaaa");
            EvLog (bytes_of "Could not send mail");
            EvWrite MAIL_FAILED; EvClose]).
Proof.
  assert (E1 : consent (bytes_of "alice" ++ ToSuffix demo_options) world_consents
               = (Done tt, mkWorld [] demo_rng,
                  [EvWrite (WELCOME_BODY (bytes_of "alice@localhost"));
                   EvWrite (bytes_of "y"); EvWrite [LF; CR]]))
    by (vm_compute; reflexivity).
  assert (E2 : randomString (TokenLength demo_options) (mkWorld [] demo_rng)
               = (Done (bytes_of "aaaaaa"),
                  after_token demo_options (mkWorld [] demo_rng), []))
    by (vm_compute; reflexivity).
  split; [repeat split; assumption|].
  exact (mail_failure_ends_session demo_options demo_env_no_mail
           (bytes_of "alice") world_consents _ _ _ E1 E2 eq_refl).
Defined.

Lemma handler_never_panics_witness :
  (TokenLength demo_options < 2 ^ 20 /\ PasswordMax demo_options < 2 ^ 20)
  /\ (result (handler demo_options demo_env (bytes_of "alice") world_registers)
      = Done tt
      \/ result (handler demo_options demo_env (bytes_of "alice") world_registers)
         = Returned
      \/ result (handler demo_options demo_env (bytes_of "alice") world_registers)
         = Fatal).
Proof.
  split; [split; reflexivity|].
  exact (handler_never_panics demo_options demo_env (bytes_of "alice")
           world_registers eq_refl eq_refl).
Defined.

Lemma incomplete_line_no_directory_witness :
  ((CR ∉ stream world_cut_off) /\ 0 < TokenLength demo_options)
  /\ result (handler demo_options demo_env (bytes_of "alice") world_cut_off)
     = Returned
  /\ last (events (handler demo_options demo_env (bytes_of "alice") world_cut_off))
     = Some EvClose
  /\ Forall (fun e => is_ldap e = false)
       (events (handler demo_options demo_env (bytes_of "alice") world_cut_off))
  /\ stream (world (handler demo_options demo_env (bytes_of "alice")
                      world_cut_off)) = [].
Proof.
  assert (Hcr : CR ∉ stream world_cut_off) by no_CR.
  split; [split; [exact Hcr | reflexivity]|].
  exact (incomplete_line_no_directory demo_options demo_env (bytes_of "alice")
           world_cut_off Hcr eq_refl).
Defined.

Lemma password_cut_off_not_registered_witness :
  ((CR ∉ stream world_password_cut)
   /\ 0 < PasswordMin demo_options
   /\ PasswordMax demo_options < uint_mod)
  /\ result (collectPassword demo_options demo_env world_password_cut) = Returned
  /\ last (events (collectPassword demo_options demo_env world_password_cut))
     = Some (EvWrite PASSWORD_FAILED)
  /\ forall user mail,
       result (directory demo_options demo_env user mail world_password_cut)
       <> Done tt
       /\ Forall (fun e => is_mutation e = false)
            (events (directory demo_options demo_env user mail
                       world_password_cut)).
Proof.
  assert (Hcr : CR ∉ stream world_password_cut) by no_CR.
  split; [split; [exact Hcr | split; reflexivity]|].
  exact (password_cut_off_not_registered demo_options demo_env
           world_password_cut Hcr eq_refl eq_refl).
Defined.

Lemma empty_token_always_verified_witness :
  TokenLength demo_options_no_token = 0
  /\ exists token w1 e,
       randomString (TokenLength demo_options_no_token) world_cut_off
       = (Done token, after_token demo_options_no_token world_cut_off, [])
       /\ token = []
       /\ tokenLoop demo_options_no_token 3 3 token world_cut_off
          = (Done tt, w1, EvWrite TOKEN_BODY :: e).
Proof.
  split; [reflexivity|].
  exact (empty_token_always_verified demo_options_no_token demo_env
           world_cut_off eq_refl).
Defined.

Lemma registration_not_transactional_witness :
  (prelude demo_options demo_env_no_passwd
     (bytes_of "alice" ++ ToSuffix demo_options) world_registers
   = (Done tt,
      mkWorld (line "abc" ++ line "Abcdefgh1" ++ line "Abcdefgh1") [],
      events (prelude demo_options demo_env_no_passwd
                (bytes_of "alice" ++ ToSuffix demo_options) world_registers))
   /\ ldap_bind_ok demo_env_no_passwd = true
   /\ ldap_search demo_env_no_passwd (LdapUserScope demo_options)
        (exists_filter demo_env_no_passwd (bytes_of "alice")) = Some 0%nat
   /\ collectPassword demo_options demo_env_no_passwd
        (mkWorld (line "abc" ++ line "Abcdefgh1" ++ line "Abcdefgh1") [])
      = (Done (bytes_of "Abcdefgh1"), mkWorld [] [],
         events (collectPassword demo_options demo_env_no_passwd
                   (mkWorld (line "abc" ++ line "Abcdefgh1" ++ line "Abcdefgh1")
                      []))))
  /\ result (handler demo_options demo_env_no_passwd (bytes_of "alice")
               world_registers) = Fatal
  /\ List.filter is_mutation
       (events (handler demo_options demo_env_no_passwd (bytes_of "alice")
                  world_registers))
     = [EvLdapAdd (bytes_of "uid=alice,ou=people,dc=example,dc=com")
          (bytes_of "email") [bytes_of "alice@localhost"];
        EvLdapPasswordModify (bytes_of "uid=alice,ou=people,dc=example,dc=com")
          (bytes_of "Abcdefgh1")]
  /\ last (events (handler demo_options demo_env_no_passwd (bytes_of "alice")
                     world_registers))
     = Some (EvLog (bytes_of "Error while registering a new user with LDAP")).
Proof.
  assert (E1 : prelude demo_options demo_env_no_passwd
                 (bytes_of "alice" ++ ToSuffix demo_options) world_registers
               = (Done tt,
                  mkWorld (line "abc" ++ line "Abcdefgh1" ++ line "Abcdefgh1") [],
                  events (prelude demo_options demo_env_no_passwd
                            (bytes_of "alice" ++ ToSuffix demo_options)
                            world_registers)))
    by (vm_compute; reflexivity).
  assert (E2 : collectPassword demo_options demo_env_no_passwd
                 (mkWorld (line "abc" ++ line "Abcdefgh1" ++ line "Abcdefgh1") [])
               = (Done (bytes_of "Abcdefgh1"), mkWorld [] [],
                  events (collectPassword demo_options demo_env_no_passwd
                            (mkWorld (line "abc" ++ line "Abcdefgh1"
                                      ++ line "Abcdefgh1") []))))
    by (vm_compute; reflexivity).
  split; [repeat split; assumption|].
  rewrite (registration_not_transactional demo_options demo_env_no_passwd
             (bytes_of "alice") world_registers _ _ _ _ _
             E1 eq_refl eq_refl E2).
  repeat split; vm_compute; reflexivity.
Defined.


Lemma directory_error_exits_witness :
  prelude demo_options demo_env_no_bind
    (bytes_of "alice" ++ ToSuffix demo_options) world_token_only
  = (Done tt, mkWorld [] [],
     events (prelude demo_options demo_env_no_bind
               (bytes_of "alice" ++ ToSuffix demo_options) world_token_only))
  /\ (ldap_bind_ok demo_env_no_bind = false ->
        handler demo_options demo_env_no_bind (bytes_of "alice") world_token_only
        = (Fatal, mkWorld [] [],
           events (prelude demo_options demo_env_no_bind
                     (bytes_of "alice" ++ ToSuffix demo_options) world_token_only)
           ++ [EvLdapBind; EvLog (bytes_of "Could not bind to LDAP")]))
  /\ (ldap_bind_ok demo_env_no_bind = true ->
      ldap_search demo_env_no_bind (LdapUserScope demo_options)
        (exists_filter demo_env_no_bind (bytes_of "alice")) = None ->
        handler demo_options demo_env_no_bind (bytes_of "alice") world_token_only
        = (Fatal, mkWorld [] [],
           events (prelude demo_options demo_env_no_bind
                     (bytes_of "alice" ++ ToSuffix demo_options) world_token_only)
           ++ [EvLdapBind;
               EvLdapSearch (LdapUserScope demo_options)
                 (exists_filter demo_env_no_bind (bytes_of "alice"));
               EvLog (bytes_of "Error while searching LDAP user")])).
Proof.
  assert (E : prelude demo_options demo_env_no_bind
                (bytes_of "alice" ++ ToSuffix demo_options) world_token_only
              = (Done tt, mkWorld [] [],
                 events (prelude demo_options demo_env_no_bind
                           (bytes_of "alice" ++ ToSuffix demo_options)
                           world_token_only)))
    by (vm_compute; reflexivity).
  split; [exact E|].
  exact (directory_error_exits demo_options demo_env_no_bind (bytes_of "alice")
           world_token_only _ _ E).
Defined.

(** C6: with passwords of up to 32 bytes, the default, the session of a
    user who is not registered, with consent, the right token, the short
    password [abc] and then the password [Abcdefgh1] entered twice, calls
    [register] once, on the identity and the identity followed by the
    mail suffix, but not on the confirmed password: the password set in
    the directory is the whole read buffer, [Abcdefgh1] followed by 23
    zero bytes.  That is with a pattern that has no anchors; with the
    pattern that asks for letters and digits only, the same entries are
    refused for the zero bytes and the session ends without registering
    anyone. *)
Theorem scenario_registers_padded_password :
  result (handler default_length_options demo_env_unanchored
            (bytes_of "alice") world_registers)
  = Done tt
  /\ List.filter is_mutation
       (events (handler default_length_options demo_env_unanchored
                  (bytes_of "alice") world_registers))
     = [EvLdapAdd (bytes_of "uid=alice,ou=people,dc=example,dc=com")
          (bytes_of "email") [bytes_of "alice@localhost"];
        EvLdapPasswordModify (bytes_of "uid=alice,ou=people,dc=example,dc=com")
          (bytes_of "Abcdefgh1" ++ replicate 23 NUL)]
  /\ bytes_of "Abcdefgh1" ++ replicate 23 NUL <> bytes_of "Abcdefgh1"
  /\ result (handler default_length_options demo_env
               (bytes_of "alice") world_registers)
     = Returned
  /\ List.filter is_mutation
       (events (handler default_length_options demo_env
                  (bytes_of "alice") world_registers))
     = []
  /\ last (writes
       (events (handler default_length_options demo_env
                  (bytes_of "alice") world_registers)))
     = Some PASSWORD_FAILED.
Proof.
  repeat split; try (vm_compute; reflexivity).
  intros H. vm_compute in H. discriminate H.
Qed.
